(** * Parking-duration aggregation: [build_intervals] and [summarize_monthly]

    A shallow embedding of the reconciliation core of [aggregate.py]:
    the per-plate walk that pairs ENTRY and EXIT events into intervals and
    records every irregular event as an issue, and the monthly summary
    computed from the intervals.  Around the core, the embedding follows
    the run of [main] from the parsed configuration to the sheets written:
    [normalize_config], [discover_excel_files], [load_events],
    [write_output] and [_autosize_sheet].  [parse_args] and [load_config]
    only hand the command line and the JSON file to [argparse] and [json],
    and are taken by their results.

    Conventions.
    - A [pd.Timestamp] is its integer count of nanoseconds since the epoch.
      The rows of [events] carry a timestamp and a plate: [load_events]
      drops the rows where either is missing.  The difference of two
      timestamps is taken as an integer: pandas raises where it does not
      fit a [Timedelta], between instants some 292 years apart, and the
      model says what the code returns where it returns.
    - A plate or an event label is a string of single-byte characters.
    - A DataFrame is its list of column labels together with its list of
      rows, so that an empty frame with columns and an empty frame without
      columns stay distinct, as they are in pandas.
    - The behaviour of pandas that the source relies on but does not fix is
      taken through two interfaces: [SortValues] for
      [DataFrame.sort_values("timestamp")] and [Float64] for the float
      arithmetic on durations.  Both are realised further down, so that the
      model runs on concrete inputs: [SortValues] by a stable insertion
      sort and by the quicksort of numpy that pandas calls.
    - The file system, the cells of a workbook and the printing of values
      are taken through the interfaces [PathLib], [Cells] and [Render];
      the first two are realised on text further down.
    - The values of the configuration have the types that [AppConfig] and
      the defaults of [normalize_config] give them; an exception is [None]
      where a function returns, and an outcome of its own for [main]. *)

From Stdlib Require Import ZArith List String Ascii Bool Lia.
From Stdlib Require Import Permutation Sorted QArith Qround Qreduction.
Import ListNotations.
Local Open Scope Z_scope.

(* ================================================================== *)
(** ** Data model *)

Definition Timestamp := Z.

(** A row of the [events] frame returned by [load_events]
    (columns [plate], [event], [timestamp]). *)
Record Event := mkEvent {
  row_plate : string;
  row_event : string;
  row_timestamp : Timestamp
}.

(** The [issue] texts written by [build_intervals], under the names the
    specification gives to the five anomaly kinds. *)
Definition HAZARD_PLATE : string := "Hazard plate number".
Definition CONSECUTIVE_ENTRY : string := "Consecutive ENTRY without EXIT".
Definition EXIT_WITHOUT_ENTRY : string := "EXIT without matching ENTRY".
Definition EXIT_BEFORE_ENTRY : string := "EXIT earlier than ENTRY".
Definition ENTRY_WITHOUT_EXIT : string := "ENTRY without matching EXIT".

(** An issue dictionary [{"plate", "issue", "timestamp"}].  The source
    stores [timestamp.isoformat()]; the rendering is one-to-one, so the
    instant itself is kept. *)
Record Issue := mkIssue {
  issue_plate : string;
  issue : string;
  issue_timestamp : Timestamp
}.

(** A DataFrame: column labels and rows. *)
Record DataFrame (A : Type) := mkFrame {
  columns : list string;
  rows : list A
}.
Arguments mkFrame {A} _ _.
Arguments columns {A} _.
Arguments rows {A} _.

(** [DataFrame.empty]: some axis has length zero. *)
Definition empty {A : Type} (df : DataFrame A) : bool :=
  match columns df, rows df with
  | _ :: _, _ :: _ => false
  | _, _ => true
  end.

(** [pd.DataFrame(records)] for a list of dictionaries that all carry the
    keys [keys]: the columns are taken from the records, so that an empty
    list gives a frame with no column at all. *)
Definition DataFrame_of_records {A : Type} (keys : list string)
  (records : list A) : DataFrame A :=
  match records with
  | [] => mkFrame [] []
  | _ :: _ => mkFrame keys records
  end.

(* ================================================================== *)
(** ** Library interfaces *)

(** Float arithmetic on durations.  The operations are the ones the source
    applies; the laws are the facts about IEEE doubles that the proofs
    use. *)
Class Float64 := {
  float : Type;
  (** [Timedelta.total_seconds()] of a difference of [d] nanoseconds *)
  total_seconds : Z -> float;
  (** [x / 60.0] *)
  div60 : float -> float;
  (** [x < 0] *)
  ltb0 : float -> bool;
  (** [0 <= x] *)
  leb0 : float -> bool;
  (** Python's [round(x, 2)] *)
  round2 : float -> float;
  (** [Series.round(2)] *)
  series_round2 : float -> float;
  (** the [sum] aggregation of a group of values *)
  group_sum : list float -> float;
  (** [pd.isna] on a float *)
  isnan : float -> bool;
  (** the minutes of a time difference are negative exactly when the
      difference is *)
  duration_sign : forall d : Z, ltb0 (div60 (total_seconds d)) = (d <? 0);
  duration_nonneg : forall d : Z, 0 <= d ->
    leb0 (div60 (total_seconds d)) = true;
  (** rounding to two decimals keeps a non-negative value non-negative *)
  round2_nonneg : forall x, leb0 x = true -> leb0 (round2 x) = true;
  (** a value that compares [0 <= x] is not NaN *)
  nonneg_not_nan : forall x, leb0 x = true -> isnan x = false
}.

Definition timestamp_le (a b : Event) : Prop :=
  row_timestamp a <= row_timestamp b.

(** [DataFrame.sort_values("timestamp")] with its default arguments:
    ascending, [kind="quicksort"].  pandas promises the rows back in
    ascending order of the column; only [kind="mergesort"] and
    [kind="stable"] promise to keep the order of equal keys, and the source
    asks for neither. *)
Class SortValues := {
  sort_values : list Event -> list Event;
  sort_values_Permutation : forall l, Permutation l (sort_values l);
  sort_values_Sorted : forall l,
    StronglySorted timestamp_le (sort_values l)
}.

(* ================================================================== *)
(** ** [str.isdigit] and [groupby] *)

Definition is_digit_char (c : ascii) : bool :=
  let n := nat_of_ascii c in (48 <=? n)%nat && (n <=? 57)%nat.

Fixpoint all_digits (s : string) : bool :=
  match s with
  | EmptyString => true
  | String c s' => is_digit_char c && all_digits s'
  end.

(** [plate.isdigit()]: at least one character and every character a
    digit; on single-byte characters the digits are ['0'] to ['9']. *)
Definition isdigit (s : string) : bool :=
  match s with
  | EmptyString => false
  | String _ _ => all_digits s
  end.

(** Group keys come out of [groupby] sorted ([sort=True]) and without
    repetition. *)
Fixpoint insert_key {K : Type} (leb : K -> K -> bool) (k : K) (ks : list K)
  : list K :=
  match ks with
  | [] => [k]
  | k' :: ks' => if leb k k' then k :: ks else k' :: insert_key leb k ks'
  end.

Definition sort_keys {K : Type} (leb : K -> K -> bool) (ks : list K)
  : list K :=
  fold_right (insert_key leb) [] ks.

Definition group_keys (events : list Event) : list string :=
  sort_keys String.leb (nodup string_dec (map row_plate events)).

(** The rows of one group, in their order in the frame. *)
Definition get_group (k : string) (events : list Event) : list Event :=
  filter (fun r => String.eqb (row_plate r) k) events.

(** [events.groupby("plate")]: the pairs [(plate, group)] the loop of
    [build_intervals] iterates over. *)
Definition groupby (events : list Event) : list (string * list Event) :=
  map (fun k => (k, get_group k events)) (group_keys events).

(* ================================================================== *)
(** ** [build_intervals] *)

Section BuildIntervals.

Context {FL : Float64} {SV : SortValues}.

(** An interval dictionary
    [{"plate", "entry_time", "exit_time", "duration_minutes"}]. *)
Record Interval := mkInterval {
  interval_plate : string;
  entry_time : Timestamp;
  exit_time : Timestamp;
  duration_minutes : float
}.

Definition interval_columns : list string :=
  ["plate"; "entry_time"; "exit_time"; "duration_minutes"]%string.

(** The two lists the function appends to. *)
Record Output := mkOutput {
  intervals : list Interval;
  issues : list Issue
}.

Definition add_issue (out : Output) (x : Issue) : Output :=
  mkOutput (intervals out) (issues out ++ [x]).

Definition add_interval (out : Output) (i : Interval) : Output :=
  mkOutput (intervals out ++ [i]) (issues out).

Variables entry_marker exit_marker : string.

(** One iteration of the loop over the rows of a non-hazard group; the
    state is the two output lists and [open_entry]. *)
Definition row_step (plate : string) (st : Output * option Timestamp)
  (row : Event) : Output * option Timestamp :=
  let '(out, open_entry) := st in
  let event := row_event row in
  let timestamp := row_timestamp row in
  if String.eqb event entry_marker then
    match open_entry with
    | Some t =>
        (add_issue out (mkIssue plate CONSECUTIVE_ENTRY t), Some timestamp)
    | None => (out, Some timestamp)
    end
  else if String.eqb event exit_marker then
    match open_entry with
    | None =>
        (add_issue out (mkIssue plate EXIT_WITHOUT_ENTRY timestamp), None)
    | Some t =>
        let duration := div60 (total_seconds (timestamp - t)) in
        if ltb0 duration then
          (add_issue out (mkIssue plate EXIT_BEFORE_ENTRY timestamp), None)
        else
          (add_interval out (mkInterval plate t timestamp (round2 duration)),
           None)
    end
  else (out, open_entry).

(** One iteration of the loop over the rows of a hazard group. *)
Definition hazard_step (plate : string) (out : Output) (hazard_row : Event)
  : Output :=
  add_issue out (mkIssue plate HAZARD_PLATE (row_timestamp hazard_row)).

(** The body of the loop over the groups. *)
Definition process_group (out : Output) (pg : string * list Event) : Output :=
  let '(plate, group) := pg in
  let group := sort_values group in
  if isdigit plate then fold_left (hazard_step plate) group out
  else
    let '(out', open_entry) := fold_left (row_step plate) group (out, None) in
    match open_entry with
    | Some t => add_issue out' (mkIssue plate ENTRY_WITHOUT_EXIT t)
    | None => out'
    end.

Definition build_intervals (events : list Event)
  : DataFrame Interval * list Issue :=
  match events with
  | [] => (mkFrame interval_columns [], [])
  | _ :: _ =>
      let out := fold_left process_group (groupby events) (mkOutput [] []) in
      (DataFrame_of_records interval_columns (intervals out), issues out)
  end.

End BuildIntervals.

(* ================================================================== *)
(** ** [summarize_monthly] *)

(** The calendar month of an instant, as [Series.dt.to_period("M")] gives
    it: the civil year and month of the day the instant falls on. *)
Definition ns_per_day : Z := 86400 * 1000000000.

(** The year and the month of the day [d] days after 1970-01-01. *)
Definition civil_from_days (d : Z) : Z * Z :=
  let z := d + 719468 in
  let era := z / 146097 in
  let doe := z - era * 146097 in
  let yoe := (doe - doe / 1460 + doe / 36524 - doe / 146096) / 365 in
  let doy := doe - (365 * yoe + yoe / 4 - yoe / 100) in
  let mp := (5 * doy + 2) / 153 in
  let m := if mp <? 10 then mp + 3 else mp - 9 in
  (yoe + era * 400 + (if m <=? 2 then 1 else 0), m).

Definition year_month (t : Timestamp) : Z * Z :=
  civil_from_days (t / ns_per_day).

Definition digit (n : Z) : string :=
  String (ascii_of_nat (48 + Z.to_nat (n mod 10))) EmptyString.

(** [.astype(str)] of a monthly period: ["YYYY-MM"]. *)
Definition month_key (t : Timestamp) : string :=
  let '(y, m) := year_month t in
  (digit (y / 1000) ++ digit (y / 100) ++ digit (y / 10) ++ digit y ++ "-"
   ++ digit (m / 10) ++ digit m)%string.

Definition key_dec (a b : string * string) : {a = b} + {a <> b}.
Proof. decide equality; apply string_dec. Defined.

Definition key_eqb (a b : string * string) : bool :=
  if key_dec a b then true else false.

(** The order of [(plate, month)] keys: by plate, then by month. *)
Definition key_leb (a b : string * string) : bool :=
  if String.eqb (fst a) (fst b) then String.leb (snd a) (snd b)
  else String.leb (fst a) (fst b).

Section SummarizeMonthly.

Context {FL : Float64}.

Record MonthlyRow := mkMonthlyRow {
  monthly_plate : string;
  month : string;
  visits : nat;
  total_minutes : float;
  total_hours : float
}.

Definition monthly_columns : list string :=
  ["plate"; "month"; "visits"; "total_minutes"; "total_hours"]%string.

(** The grouping key of an interval: its plate and the [month] column,
    which is computed from [entry_time]. *)
Definition monthly_key (i : Interval) : string * string :=
  (interval_plate i, month_key (entry_time i)).

(** The [duration_minutes] values of the group of key [k]. *)
Definition group_durations (k : string * string) (l : list Interval)
  : list float :=
  map duration_minutes (filter (fun i => key_eqb (monthly_key i) k) l).

(** [count]: the number of values that are not NaN. *)
Definition count (l : list float) : nat :=
  List.length (filter (fun x => negb (isnan x)) l).

(** One row of the aggregated frame: [count] and [sum] of the group, then
    [total_hours] from the sum and [total_minutes] rounded afterwards. *)
Definition monthly_row (l : list Interval) (k : string * string)
  : MonthlyRow :=
  let durations := group_durations k l in
  let visits := count durations in
  let total_minutes := group_sum durations in
  let total_hours := series_round2 (div60 total_minutes) in
  let total_minutes := series_round2 total_minutes in
  mkMonthlyRow (fst k) (snd k) visits total_minutes total_hours.

Definition monthly_keys (l : list Interval) : list (string * string) :=
  sort_keys key_leb (nodup key_dec (map monthly_key l)).

Definition summarize_monthly (intervals : DataFrame Interval)
  : DataFrame MonthlyRow :=
  if empty intervals then mkFrame monthly_columns []
  else
    mkFrame monthly_columns
      (map (monthly_row (rows intervals)) (monthly_keys (rows intervals))).

End SummarizeMonthly.

(* ================================================================== *)
(** ** Text: [str.strip], [str.upper], [str.startswith]

    On ASCII text, which is what the labels below are taken to be. *)

(** [str.isspace] of a character. *)
Definition is_space (c : ascii) : bool :=
  let n := nat_of_ascii c in
  ((9 <=? n)%nat && (n <=? 13)%nat) || ((28 <=? n)%nat && (n <=? 32)%nat).

Fixpoint lstrip (s : string) : string :=
  match s with
  | EmptyString => EmptyString
  | String c s' => if is_space c then lstrip s' else s
  end.

Fixpoint rstrip (s : string) : string :=
  match s with
  | EmptyString => EmptyString
  | String c s' =>
      match rstrip s' with
      | EmptyString => if is_space c then EmptyString else String c EmptyString
      | String d t => String c (String d t)
      end
  end.

Definition strip (s : string) : string := lstrip (rstrip s).

Definition upper_char (c : ascii) : ascii :=
  let n := nat_of_ascii c in
  if (97 <=? n)%nat && (n <=? 122)%nat then ascii_of_nat (n - 32) else c.

Fixpoint upper (s : string) : string :=
  match s with
  | EmptyString => EmptyString
  | String c s' => String (upper_char c) (upper s')
  end.

Fixpoint startswith (s prefix : string) : bool :=
  match prefix, s with
  | EmptyString, _ => true
  | String _ _, EmptyString => false
  | String a p', String b s' => Ascii.eqb a b && startswith s' p'
  end.

(* ================================================================== *)
(** ** Configuration: [normalize_config]

    The values of the configuration are taken with the types that
    [AppConfig] and the defaults give them: strings, a boolean, and an
    object of strings for [columns].  A key can be absent, or present with
    [null], where the source tests for it. *)

(** The value of a key of the JSON object. *)
Inductive Entry (A : Type) :=
| Missing
| Null
| Value (a : A).
Arguments Missing {A}.
Arguments Null {A}.
Arguments Value {A} _.

(** [d.get(key)] and [d.get(key, default)]; [None] is Python's [None]. *)
Definition get {A : Type} (e : Entry A) : option A :=
  match e with
  | Value a => Some a
  | _ => None
  end.

Definition get_default {A : Type} (e : Entry A) (default : A) : option A :=
  match e with
  | Missing => Some default
  | Null => None
  | Value a => Some a
  end.

(** Truth of a string or [None], and [a or b]. *)
Definition truthy (v : option string) : bool :=
  match v with
  | Some (String _ _) => true
  | _ => false
  end.

Definition py_or (a b : option string) : option string :=
  if truthy a then a else b.

Record ColumnMapping := mkColumnMapping {
  plate : string;
  event : string;
  timestamp : string
}.

(** The [columns] object of the configuration. *)
Record ColumnsConfig := mkColumnsConfig {
  raw_plate : option string;
  raw_event : option string;
  raw_timestamp : option string
}.

Record RawConfig := mkRawConfig {
  raw_source_folder : Entry string;
  raw_output_file : Entry string;
  raw_columns : option ColumnsConfig;
  raw_entry_marker : Entry string;
  raw_exit_marker : Entry string;
  raw_timestamp_format : Entry string;
  raw_recursive : Entry bool
}.

(** The command line, as [parse_args] returns it. *)
Record Namespace := mkNamespace {
  arg_source_folder : option string;
  arg_output_file : option string;
  arg_timestamp_format : option string;
  arg_recursive : bool
}.

(** What the source asks of [pathlib] and of the file system. *)
Class PathLib := {
  Path : Type;
  (** [Path(value)] *)
  Path_of : string -> Path;
  is_absolute : Path -> bool;
  (** [(base / candidate).resolve()]; [None] where [resolve] raises, as
      it does on a path that holds a NUL character *)
  resolve_under : Path -> Path -> option Path;
  (** [path.name] *)
  name : Path -> string;
  is_file : Path -> bool;
  (** [folder.glob(pattern)] *)
  glob : Path -> string -> list Path;
  (** [a <= b] on paths *)
  path_leb : Path -> Path -> bool
}.

Section Configuration.

Context {PL : PathLib}.

Record AppConfig := mkAppConfig {
  source_folder : Path;
  output_file : Path;
  column_map : ColumnMapping;
  app_entry_marker : string;
  app_exit_marker : string;
  timestamp_format : option string;
  recursive : bool
}.

(** [_resolve_path]; [None] stands for an exception: its own
    [ValueError], or what [resolve] raises. *)
Definition resolve_path (config_base : Path) (value : option string)
  (default : option Path) : option Path :=
  match value with
  | Some (String c s) =>
      let candidate := Path_of (String c s) in
      if is_absolute candidate then Some candidate
      else resolve_under config_base candidate
  | _ => default
  end.

Definition or_default (v : option string) (default : string) : string :=
  match v with
  | Some (String c s) => String c s
  | _ => default
  end.

(** [normalize_config]; [None] stands for an exception raised in
    [_resolve_path]. *)
Definition normalize_config (raw_cfg : RawConfig) (overrides : Namespace)
  (config_base : Path) : option AppConfig :=
  match resolve_path config_base
          (py_or (arg_source_folder overrides)
                 (get (raw_source_folder raw_cfg))) None with
  | None => None
  | Some source_folder =>
      match resolve_path config_base
              (py_or (arg_output_file overrides)
                     (get_default (raw_output_file raw_cfg)
                        "output/parking_durations.xlsx"%string)) None with
      | None => None
      | Some output_file =>
          let columns_cfg :=
            match raw_columns raw_cfg with
            | Some c => c
            | None => mkColumnsConfig None None None
            end in
          let column_map :=
            mkColumnMapping
              (match raw_plate columns_cfg with
               | Some s => s | None => "Plate"%string end)
              (match raw_event columns_cfg with
               | Some s => s | None => "Event"%string end)
              (match raw_timestamp columns_cfg with
               | Some s => s | None => "Timestamp"%string end) in
          let entry_marker :=
            upper (or_default (get (raw_entry_marker raw_cfg))
                     "01 ENTRY"%string) in
          let exit_marker :=
            upper (or_default (get (raw_exit_marker raw_cfg))
                     "02 EXIT"%string) in
          let timestamp_format :=
            py_or (arg_timestamp_format overrides)
                  (get (raw_timestamp_format raw_cfg)) in
          let recursive :=
            arg_recursive overrides ||
            match get_default (raw_recursive raw_cfg) false with
            | Some b => b
            | None => false
            end in
          Some (mkAppConfig source_folder output_file column_map
                  entry_marker exit_marker timestamp_format recursive)
      end
  end.

(** [discover_excel_files] *)
Definition discover_excel_files (folder : Path) (recursive : bool)
  : list Path :=
  let pattern := if recursive then "**/*.xls*"%string else "*.xls*"%string in
  let files :=
    filter (fun file_path =>
              is_file file_path &&
              negb (startswith (name file_path) "~$"%string))
           (glob folder pattern) in
  sort_keys path_leb files.

End Configuration.

(* ================================================================== *)
(** ** Reading the workbooks: [load_events] *)

(** What the source asks of pandas about the cells of a sheet. *)
Class Cells := {
  Cell : Type;
  (** [pd.isna] *)
  isna : Cell -> bool;
  (** [astype(str)] *)
  astype_str : Cell -> string;
  (** [pd.to_datetime(column, format=..., errors="coerce")], [None] for
      [NaT] *)
  to_datetime : option string -> list Cell -> list (option Timestamp);
  to_datetime_length : forall format column,
    List.length (to_datetime format column) = List.length column
}.

Section LoadEvents.

Context {CL : Cells}.

(** The frame [pd.read_excel] returns: its column labels, and its rows as
    the cell under each label. *)
Record Sheet := mkSheet {
  sheet_columns : list string;
  sheet_rows : list (string -> Cell)
}.

Definition event_columns : list string :=
  ["plate"; "event"; "timestamp"]%string.

(** The required labels that the frame lacks. *)
Definition missing (columns : ColumnMapping) (frame : Sheet) : list string :=
  filter (fun label => negb (existsb (String.eqb label) (sheet_columns frame)))
         [plate columns; event columns; timestamp columns].

(** The three columns of a frame, without the rows whose plate is
    missing. *)
Definition trimmed (columns : ColumnMapping) (frame : Sheet)
  : list (Cell * Cell * Cell) :=
  filter (fun r => negb (isna (fst (fst r))))
    (map (fun row => (row (plate columns), row (event columns),
                      row (timestamp columns)))
         (sheet_rows frame)).

(** The loop over the files: [None] is a file that [pd.read_excel] fails
    on. *)
Definition frames_of (files : list (option Sheet)) (columns : ColumnMapping)
  : list (list (Cell * Cell * Cell)) :=
  flat_map (fun read =>
              match read with
              | None => []
              | Some frame =>
                  match missing columns frame with
                  | [] => [trimmed columns frame]
                  | _ :: _ => []
                  end
              end) files.

(** The rows whose timestamp is not [NaT]. *)
Fixpoint with_timestamps (l : list (Cell * Cell * Cell))
  (ts : list (option Timestamp)) : list (Cell * Cell * Timestamp) :=
  match l, ts with
  | (p, e, _) :: l', Some t :: ts' => (p, e, t) :: with_timestamps l' ts'
  | _ :: l', None :: ts' => with_timestamps l' ts'
  | _, _ => []
  end.

Definition normalize (c : Cell) : string := upper (strip (astype_str c)).

Definition load_events (files : list (option Sheet))
  (columns : ColumnMapping) (timestamp_format : option string)
  : DataFrame Event :=
  match frames_of files columns with
  | [] => mkFrame event_columns []
  | frames =>
      let events := List.concat frames in
      let timestamps :=
        to_datetime timestamp_format (map (fun r => snd r) events) in
      let events := with_timestamps events timestamps in
      let events :=
        map (fun r => mkEvent (normalize (fst (fst r)))
                              (normalize (snd (fst r))) (snd r)) events in
      mkFrame event_columns
        (filter (fun r => negb (String.eqb (row_plate r) ""%string) &&
                          negb (String.eqb (row_plate r) "NAN"%string)) events)
  end.

End LoadEvents.

(* ================================================================== *)
(** ** Writing the workbook: [write_output], [_autosize_sheet], [main] *)

(** A frame as the sheet writer reads it: the column labels and, row by
    row, the text [astype(str)] gives each cell. *)
Record Table := mkTable {
  headers : list string;
  body : list (list string)
}.

Definition table_empty (t : Table) : bool :=
  match headers t, body t with
  | _ :: _, _ :: _ => false
  | _, _ => true
  end.

(** [dataframe[column].astype(str)] for the column at position [idx],
    counted from 1: the labels of a frame are distinct, so that
    [dataframe[column]] is that one column. *)
Definition series (t : Table) (idx : nat) : list string :=
  map (fun row => nth (idx - 1) row EmptyString) (body t).

(** [max] of a non-empty list of lengths. *)
Definition max_of (first : nat) (others : list nat) : nat :=
  fold_left Nat.max others first.

(** [_autosize_sheet]: the widths it sets, as pairs of the position of a
    column, counted from 1, and the width.  The worksheet files each under
    [get_column_letter] of the position. *)
Definition _autosize_sheet (dataframe : Table) : list (nat * nat) :=
  match headers dataframe with
  | [] => []
  | _ :: _ =>
      map (fun ic =>
             let '(idx, column) := ic in
             let header_length := String.length column in
             let max_length :=
               if table_empty dataframe then header_length
               else
                 let cell_lengths :=
                   map String.length (series dataframe idx) in
                 max_of header_length cell_lengths in
             (idx, Nat.min (max_length + 2) 60))
          (combine (seq 1 (List.length (headers dataframe)))
                   (headers dataframe))
  end.

(** How the sheet writer prints the values of the frames. *)
Class Render {FL : Float64} := {
  str_float : float -> string;
  str_timestamp : Timestamp -> string;
  str_int : nat -> string;
  (** [Timestamp.isoformat()] *)
  isoformat : Timestamp -> string
}.

Section WriteOutput.

Context {FL : Float64} {RD : Render}.

Definition issue_columns : list string :=
  ["plate"; "issue"; "timestamp"]%string.

(** The cells of a frame whose rows print as [cells] says; a frame without
    columns has no cell. *)
Definition table_of {A : Type} (cells : A -> list string)
  (df : DataFrame A) : Table :=
  mkTable (columns df)
    (match columns df with
     | [] => []
     | _ :: _ => map cells (rows df)
     end).

Definition interval_cells (i : Interval) : list string :=
  [interval_plate i; str_timestamp (entry_time i);
   str_timestamp (exit_time i); str_float (duration_minutes i)].

Definition monthly_cells (r : MonthlyRow) : list string :=
  [monthly_plate r; month r; str_int (visits r);
   str_float (total_minutes r); str_float (total_hours r)].

Definition issue_cells (x : Issue) : list string :=
  [issue_plate x; issue x; isoformat (issue_timestamp x)].

(** A sheet of the workbook: its name, its cells and the widths set. *)
Record WrittenSheet := mkWrittenSheet {
  sheet_name : string;
  sheet_table : Table;
  sheet_widths : list (nat * nat)
}.

Definition written (sheet_name : string) (t : Table) : WrittenSheet :=
  mkWrittenSheet sheet_name t (_autosize_sheet t).

(** [write_output]: the sheets written to [output_file], in order. *)
Definition write_output (intervals : DataFrame Interval)
  (monthly : DataFrame MonthlyRow) (issues : list Issue)
  : list WrittenSheet :=
  written "monthly_totals" (table_of monthly_cells monthly)
  :: written "intervals" (table_of interval_cells intervals)
  :: match issues with
     | [] => []
     | _ :: _ =>
         [written "issues"
            (table_of issue_cells
               (DataFrame_of_records issue_columns issues))]
     end.

End WriteOutput.

Section Main.

Context {FL : Float64} {SV : SortValues} {RD : Render} {PL : PathLib}
        {CL : Cells}.

(** How a run of [main] ends once the configuration is read. *)
Inductive Outcome :=
| Raised
| Exit (status : nat)
| Saved (output_file : Path) (sheets : list WrittenSheet).

(** [main] from the parsed configuration on; [read_excel] is
    [pd.read_excel], with [None] where it fails.  The run is followed to
    its exit or to the sheets it saves; of the exceptions that end it,
    only those of [normalize_config] are followed, not those the library
    raises while it lists the folder, takes the difference of two
    timestamps or writes the workbook. *)
Definition main (read_excel : Path -> option Sheet) (raw_cfg : RawConfig)
  (args : Namespace) (config_base : Path) : Outcome :=
  match normalize_config raw_cfg args config_base with
  | None => Raised
  | Some app_config =>
      let excel_files :=
        discover_excel_files (source_folder app_config)
                             (recursive app_config) in
      match excel_files with
      | [] => Exit 1
      | _ :: _ =>
          let events :=
            load_events (map read_excel excel_files) (column_map app_config)
                        (timestamp_format app_config) in
          if empty events then Exit 1
          else
            let '(intervals, issues) :=
              build_intervals (app_entry_marker app_config)
                              (app_exit_marker app_config) (rows events) in
            let monthly := summarize_monthly intervals in
            Saved (output_file app_config)
                  (write_output intervals monthly issues)
      end
  end.

End Main.

(* ================================================================== *)
(** ** Definitions used to state and prove the claims *)

Definition timestamp_lt (a b : Event) : Prop :=
  row_timestamp a < row_timestamp b.

(** The branch of the [if]/[elif] chain an event string takes. *)
Inductive Kind := ENTRY | EXIT | OTHER.

Definition kind_of (entry_marker exit_marker event : string) : Kind :=
  if String.eqb event entry_marker then ENTRY
  else if String.eqb event exit_marker then EXIT
  else OTHER.

(** A sort that keeps rows of equal timestamp in their input order. *)
Definition stable_sort (l : list Event) : list Event :=
  sort_keys (fun a b => row_timestamp a <=? row_timestamp b) l.

(** *** The order of [sort_values] in pandas

    [group.sort_values("timestamp")] takes the rows in the order of
    [argsort(kind="quicksort")] of the timestamps, which for [datetime64]
    values is numpy's [aquicksort_<npy::datetime_tag>]: a quicksort with
    the median of three as pivot, an insertion sort for ranges of at most
    17 rows, and a heapsort for a range reached after more partitions than
    twice the binary logarithm of the length.  The routine is followed on
    the rows themselves and not on an array of their positions. *)

(** [npy::datetime_tag::less] on timestamps, none of which is [NaT]. *)
Definition less (a b : Event) : bool := row_timestamp a <? row_timestamp b.

(** The array, read and written by position. *)
Definition item (a : list Event) (i : nat) : Event :=
  nth i a (mkEvent EmptyString EmptyString 0).

Definition store (a : list Event) (i : nat) (x : Event) : list Event :=
  if (i <? List.length a)%nat then firstn i a ++ x :: skipn (S i) a else a.

Definition INTP_SWAP (i j : nat) (a : list Event) : list Event :=
  store (store a i (item a j)) j (item a i).

Definition SMALL_QUICKSORT : nat := 16.

(** The insertion sort of a short range: a row moves left past the rows
    of a later timestamp only. *)
Fixpoint shift (vp : Event) (before after : list Event) : list Event :=
  match before with
  | [] => vp :: after
  | k :: rest =>
      if less vp k then shift vp rest (k :: after)
      else rev before ++ vp :: after
  end.

Definition insertion_sort (a : list Event) : list Event :=
  fold_left (fun sorted vi => shift vi (rev sorted) []) a [].

(** [do ++pi; while (less(v[*pi], vp))] and
    [do --pj; while (less(vp, v[*pj]))]. *)
Fixpoint scan_up (fuel pi : nat) (vp : Event) (a : list Event) : nat :=
  match fuel with
  | O => pi
  | S fuel' =>
      if less (item a (S pi)) vp then scan_up fuel' (S pi) vp a else S pi
  end.

Fixpoint scan_down (fuel pj : nat) (vp : Event) (a : list Event) : nat :=
  match fuel with
  | O => pj
  | S fuel' =>
      if less vp (item a (pj - 1)) then scan_down fuel' (pj - 1) vp a
      else (pj - 1)%nat
  end.

(** The inner [for (;;)] loop of the partition. *)
Fixpoint exchange (fuel pi pj : nat) (vp : Event) (a : list Event)
  : nat * list Event :=
  match fuel with
  | O => (pi, a)
  | S fuel' =>
      let pi := scan_up (List.length a) pi vp a in
      let pj := scan_down (List.length a) pj vp a in
      if (pj <=? pi)%nat then (pi, a)
      else exchange fuel' pi pj vp (INTP_SWAP pi pj a)
  end.

(** One partition of the range [a]: the rows before the pivot, the pivot
    and the rows after it. *)
Definition partition (a : list Event) : list Event * Event * list Event :=
  let pl := O in
  let pr := (List.length a - 1)%nat in
  let pm := (pl + (pr - pl) / 2)%nat in
  let a := if less (item a pm) (item a pl) then INTP_SWAP pm pl a else a in
  let a := if less (item a pr) (item a pm) then INTP_SWAP pr pm a else a in
  let a := if less (item a pm) (item a pl) then INTP_SWAP pm pl a else a in
  let vp := item a pm in
  let pj := (pr - 1)%nat in
  let a := INTP_SWAP pm pj a in
  let '(pi, a) := exchange (List.length a) pl pj vp a in
  let pk := (pr - 1)%nat in
  let a := INTP_SWAP pi pk a in
  (firstn pi a, item a pi, skipn (S pi) a).

(** [aheapsort_], on positions counted from 1: the loop that sinks [tmp]
    from position [i], the loop that builds the heap, and the loop that
    empties it. *)
Fixpoint sift (fuel : nat) (tmp : Event) (i j n : nat) (a : list Event)
  : list Event :=
  match fuel with
  | O => store a (i - 1) tmp
  | S fuel' =>
      if (j <=? n)%nat then
        let j := if (j <? n)%nat && less (item a (j - 1)) (item a j)
                 then S j else j in
        if less tmp (item a (j - 1))
        then sift fuel' tmp j (j + j) n (store a (i - 1) (item a (j - 1)))
        else store a (i - 1) tmp
      else store a (i - 1) tmp
  end.

Fixpoint heapify (l n : nat) (a : list Event) : list Event :=
  match l with
  | O => a
  | S l' => heapify l' n (sift n (item a l') l (l * 2) n a)
  end.

Fixpoint drain (n : nat) (a : list Event) : list Event :=
  match n with
  | O => a
  | S n' =>
      if (1 <? n)%nat then
        let tmp := item a n' in
        let a := store a n' (item a 0) in
        drain n' (sift n' tmp 1 2 n' a)
      else a
  end.

Definition aheapsort (a : list Event) : list Event :=
  let n := List.length a in
  drain n (heapify (n / 2) n a).

(** The loop over the ranges.  The larger part of a partition is pushed
    on the stack with the depth left, and is sorted by [aheapsort] when it
    is popped with a negative depth; the smaller part is carried on with
    at once. *)
Fixpoint aquicksort_from (fuel : nat) (popped : bool) (cdepth : Z)
  (a : list Event) : list Event :=
  match fuel with
  | O => a
  | S fuel' =>
      if popped && (cdepth <? 0) then aheapsort a
      else if (SMALL_QUICKSORT <? List.length a - 1)%nat then
        let '(lower, pivot, upper) := partition a in
        let cdepth := cdepth - 1 in
        if (List.length lower <? List.length upper)%nat
        then aquicksort_from fuel' false cdepth lower
             ++ pivot :: aquicksort_from fuel' true cdepth upper
        else aquicksort_from fuel' true cdepth lower
             ++ pivot :: aquicksort_from fuel' false cdepth upper
      else insertion_sort a
  end.

Definition npy_get_msb (n : nat) : nat := Nat.log2 n.

Definition aquicksort (a : list Event) : list Event :=
  aquicksort_from (S (List.length a)) true
    (Z.of_nat (npy_get_msb (List.length a)) * 2) a.

(** The test that [r] holds the rows of [l] in ascending order. *)
Definition Event_eq_dec (a b : Event) : {a = b} + {a <> b}.
Proof.
  decide equality; [apply Z.eq_dec|apply string_dec|apply string_dec].
Defined.

Fixpoint ascending (l : list Event) : bool :=
  match l with
  | x :: (y :: _) as l' =>
      (row_timestamp x <=? row_timestamp y) && ascending l'
  | _ => true
  end.

Fixpoint take_out (x : Event) (l : list Event) : option (list Event) :=
  match l with
  | [] => None
  | y :: l' =>
      if Event_eq_dec x y then Some l'
      else option_map (cons y) (take_out x l')
  end.

Fixpoint rearranges (l r : list Event) : bool :=
  match l with
  | [] => match r with [] => true | _ :: _ => false end
  | x :: l' =>
      match take_out x r with
      | Some r' => rearranges l' r'
      | None => false
      end
  end.

(** [aquicksort] as [sort_values] is to be used.  That the routine sorts
    is the contract of numpy and is not proved here: its result is taken
    where it holds the rows in ascending order, so that
    [quicksort_values] is [aquicksort] wherever [aquicksort] sorts, and
    the rows are sorted by insertion elsewhere. *)
Definition quicksort_values (l : list Event) : list Event :=
  let sorted := aquicksort l in
  if ascending sorted && rearranges l sorted then sorted else stable_sort l.

(** Exact rational arithmetic, rounded half to even, with which the
    [Float64] interface is realised further down so that the model runs
    on concrete inputs. *)
Definition Q_total_seconds (d : Z) : Q :=
  Qred (inject_Z d / inject_Z 1000000000).
Definition Q_div60 (x : Q) : Q := Qred (x / inject_Z 60).
Definition Q_leb0 (x : Q) : bool := Qle_bool 0 x.
Definition Q_ltb0 (x : Q) : bool := negb (Qle_bool 0 x).
Definition round_half_even (x : Q) : Z :=
  let f := Qfloor x in
  match Qcompare (x - inject_Z f) (1 # 2) with
  | Lt => f
  | Gt => f + 1
  | Eq => if Z.even f then f else f + 1
  end.
Definition Q_round2 (x : Q) : Q :=
  Qred (inject_Z (round_half_even (x * inject_Z 100)) / inject_Z 100).
Definition Q_sum (l : list Q) : Q := Qred (fold_left Qplus l 0%Q).

(** *** The civil calendar

    The month of an instant as the claims word it, from the lengths of the
    months and the rule of leap years, to compare [month_key] with. *)

Definition is_leap (y : Z) : bool :=
  (y mod 4 =? 0) && (negb (y mod 100 =? 0) || (y mod 400 =? 0)).

Definition days_in_month (y m : Z) : Z :=
  if m =? 2 then (if is_leap y then 29 else 28)
  else if (m =? 4) || (m =? 6) || (m =? 9) || (m =? 11) then 30
  else 31.

Definition leap_years_before (y : Z) : Z :=
  (y - 1) / 4 - (y - 1) / 100 + (y - 1) / 400.

(** The days from 1970-01-01 to the first day of the year [y], and to the
    first day of its month [m]. *)
Definition year_start (y : Z) : Z :=
  365 * (y - 1970) + (leap_years_before y - leap_years_before 1970).

Definition month_start (y m : Z) : Z :=
  year_start y +
  fold_left Z.add
    (map (fun k => days_in_month y (Z.of_nat k)) (seq 1 (Z.to_nat (m - 1))))
    0.

(** The instant [t] lies in the month [m] of the year [y]. *)
Definition in_month (y m : Z) (t : Timestamp) : Prop :=
  month_start y m * ns_per_day <= t <
  (month_start y m + days_in_month y m) * ns_per_day.

(** A year and a month written as ["YYYY-MM"]. *)
Definition year_month_text (y m : Z) : string :=
  (digit (y / 1000) ++ digit (y / 100) ++ digit (y / 10) ++ digit y ++ "-"
   ++ digit (m / 10) ++ digit m)%string.

(** [f] holds of the [n] integers from [base] on. *)
Definition all_between (base : Z) (n : nat) (f : Z -> bool) : bool :=
  forallb (fun k => f (base + Z.of_nat k)) (seq 0 n).

(** [civil_from_days] gives the day [d] the year [y] and the month
    [m]. *)
Definition day_in_month (y m d : Z) : bool :=
  let '(y', m') := civil_from_days d in (y' =? y) && (m' =? m).

(** [civil_from_days] gives every day of the month [m] of the year [y]
    that year and that month. *)
Definition month_checked (y m : Z) : bool :=
  all_between (month_start y m) (Z.to_nat (days_in_month y m))
    (day_in_month y m).

Section Statements.

Context {FL : Float64} {SV : SortValues}.
Variables entry_marker exit_marker : string.

#[local] Abbreviation kind := (kind_of entry_marker exit_marker).
#[local] Abbreviation step := (row_step entry_marker exit_marker).

Definition no_output : Output := mkOutput [] [].

Definition Output_app (a b : Output) : Output :=
  mkOutput (intervals a ++ intervals b) (issues a ++ issues b).

(** What the walk over [rows] appends, started with [open_entry], the
    closing "ENTRY without matching EXIT" included. *)
Fixpoint walk (plate : string) (open_entry : option Timestamp)
  (rows : list Event) : Output :=
  match rows with
  | [] =>
      match open_entry with
      | Some t => mkOutput [] [mkIssue plate ENTRY_WITHOUT_EXIT t]
      | None => no_output
      end
  | row :: rest =>
      Output_app (fst (step plate (no_output, open_entry) row))
        (walk plate (snd (step plate (no_output, open_entry) row)) rest)
  end.

(** What [process_group] appends for one group. *)
Definition group_output (plate : string) (group : list Event) : Output :=
  if isdigit plate then
    mkOutput []
      (map (fun r => mkIssue plate HAZARD_PLATE (row_timestamp r))
           (sort_values group))
  else walk plate None (sort_values group).

Definition close_entry (plate : string) (st : Output * option Timestamp)
  : Output :=
  match snd st with
  | Some t => add_issue (fst st) (mkIssue plate ENTRY_WITHOUT_EXIT t)
  | None => fst st
  end.

(** The outputs of the groups, one after the other. *)
Definition groups_output (groups : list (string * list Event)) : Output :=
  fold_right (fun pg out => Output_app (group_output (fst pg) (snd pg)) out)
             no_output groups.

Definition intervals_of (p : string) (l : list Interval) : list Interval :=
  filter (fun i => String.eqb (interval_plate i) p) l.

Definition issues_of (p : string) (l : list Issue) : list Issue :=
  filter (fun x => String.eqb (issue_plate x) p) l.

(** The events of the plate [p] in the input, as the claims word them:
    the rows of the input that carry this plate, in the order of the
    input. *)
Definition plate_events (p : string) (events : list Event) : list Event :=
  filter (fun r => if string_dec (row_plate r) p then true else false)
         events.

(** Every record of an output carries the plate [p]. *)
Definition output_of_plate (p : string) (out : Output) : Prop :=
  Forall (fun i => interval_plate i = p) (intervals out) /\
  Forall (fun x => issue_plate x = p) (issues out).

(** The row is one of the two markers. *)
Definition is_marker (row : Event) : bool :=
  String.eqb (row_event row) entry_marker ||
  String.eqb (row_event row) exit_marker.

(** What holds of an interval the walk emits. *)
Definition well_formed_interval (i : Interval) : Prop :=
  entry_time i <= exit_time i /\
  duration_minutes i =
    round2 (div60 (total_seconds (exit_time i - entry_time i))) /\
  leb0 (duration_minutes i) = true.

(** An entry of the ledger: a record the walk appends, with the rows it
    comes from, or a row the walk passes over. *)
Inductive Account :=
| Paired (i : Interval) (entry_row exit_row : Event)
| Flagged (x : Issue) (row : Event)
| Rejected (x : Issue) (entry_row exit_row : Event)
| Skipped (row : Event).

(** The walk of [build_intervals] over the rows of a group, replayed with
    the open slot holding the row of the open entry and not only its
    time. *)
Fixpoint ledger (plate : string) (open_row : option Event)
  (rows : list Event) : list Account :=
  match rows with
  | [] =>
      match open_row with
      | Some e =>
          [Flagged (mkIssue plate ENTRY_WITHOUT_EXIT (row_timestamp e)) e]
      | None => []
      end
  | row :: rest =>
      match kind (row_event row) with
      | ENTRY =>
          match open_row with
          | Some e =>
              Flagged (mkIssue plate CONSECUTIVE_ENTRY (row_timestamp e)) e
              :: ledger plate (Some row) rest
          | None => ledger plate (Some row) rest
          end
      | EXIT =>
          match open_row with
          | None =>
              Flagged (mkIssue plate EXIT_WITHOUT_ENTRY (row_timestamp row))
                      row
              :: ledger plate None rest
          | Some e =>
              let duration :=
                div60 (total_seconds (row_timestamp row - row_timestamp e)) in
              if ltb0 duration then
                Rejected (mkIssue plate EXIT_BEFORE_ENTRY (row_timestamp row))
                         e row
                :: ledger plate None rest
              else
                Paired (mkInterval plate (row_timestamp e)
                          (row_timestamp row) (round2 duration)) e row
                :: ledger plate None rest
          end
      | OTHER => Skipped row :: ledger plate open_row rest
      end
  end.

Definition account_intervals (a : Account) : list Interval :=
  match a with
  | Paired i _ _ => [i]
  | _ => []
  end.

Definition account_issues (a : Account) : list Issue :=
  match a with
  | Flagged x _ | Rejected x _ _ => [x]
  | _ => []
  end.

(** The rows an entry of the ledger accounts for. *)
Definition sources (a : Account) : list Event :=
  match a with
  | Paired _ e x | Rejected _ e x => [e; x]
  | Flagged _ r | Skipped r => [r]
  end.

(** An entry that accounts for its rows as the claim says: an interval
    built from an ENTRY row and an EXIT row, or an issue raised for one
    row and stamped with its time. *)
Definition accounts_for (plate : string) (a : Account) : Prop :=
  match a with
  | Paired i e x =>
      kind (row_event e) = ENTRY /\ kind (row_event x) = EXIT /\
      i = mkInterval plate (row_timestamp e) (row_timestamp x)
            (round2 (div60 (total_seconds
                              (row_timestamp x - row_timestamp e))))
  | Flagged x r =>
      issue_plate x = plate /\ issue_timestamp x = row_timestamp r
  | Rejected _ _ _ | Skipped _ => False
  end.

Definition open_rows (open_row : option Event) : list Event :=
  match open_row with
  | Some e => [e]
  | None => []
  end.

(** The loop of [process_group] run over [rows], the rows taken in the
    order given, from empty output lists. *)
Definition loop_over (plate : string) (rows : list Event) : Output :=
  if isdigit plate then fold_left (hazard_step plate) rows no_output
  else close_entry plate (fold_left (step plate) rows (no_output, None)).

(** The intervals of the monthly group of plate [plate] and month [mon]:
    those of that plate whose entry time falls in that month. *)
Definition monthly_group (plate mon : string) (l : list Interval)
  : list Interval :=
  filter (fun i => String.eqb (interval_plate i) plate &&
                   String.eqb (month_key (entry_time i)) mon) l.

End Statements.

(* ================================================================== *)
(** ** Insertion sort and quicksort as implementations of [SortValues] *)

Section InsertionSort.

Variable K : Type.
Variable leb : K -> K -> bool.

Lemma insert_key_Permutation (k : K) (ks : list K) :
  Permutation (k :: ks) (insert_key leb k ks).
Proof.
  induction ks as [|k' ks IH]; simpl.
  - apply Permutation_refl.
  - destruct (leb k k').
    + apply Permutation_refl.
    + eapply perm_trans; [apply perm_swap|].
      apply perm_skip, IH.
Qed.

Lemma sort_keys_Permutation (ks : list K) :
  Permutation ks (sort_keys leb ks).
Proof.
  induction ks as [|k ks IH]; simpl.
  - apply perm_nil.
  - eapply perm_trans; [apply perm_skip, IH|].
    apply insert_key_Permutation.
Qed.

Variable R : K -> K -> Prop.
Hypothesis R_trans : forall a b c, R a b -> R b c -> R a c.
Hypothesis leb_true : forall a b, leb a b = true -> R a b.
Hypothesis leb_false : forall a b, leb a b = false -> R b a.

Lemma insert_key_StronglySorted (k : K) (ks : list K) :
  StronglySorted R ks -> StronglySorted R (insert_key leb k ks).
Proof.
  induction 1 as [|k' ks Hs IH Hall]; simpl.
  - repeat constructor.
  - destruct (leb k k') eqn:E.
    + constructor; [constructor; assumption|].
      constructor; [apply leb_true, E|].
      eapply Forall_impl; [|exact Hall].
      intros c Hc. eapply R_trans; [apply leb_true, E|exact Hc].
    + constructor; [exact IH|].
      eapply Permutation_Forall; [apply insert_key_Permutation|].
      constructor; [apply leb_false, E|exact Hall].
Qed.

Lemma sort_keys_StronglySorted (ks : list K) :
  StronglySorted R (sort_keys leb ks).
Proof.
  induction ks as [|k ks IH]; simpl.
  - constructor.
  - apply insert_key_StronglySorted, IH.
Qed.

End InsertionSort.

Lemma timestamp_le_trans (a b c : Event) :
  timestamp_le a b -> timestamp_le b c -> timestamp_le a c.
Proof. unfold timestamp_le; lia. Qed.

Lemma stable_sort_Sorted (l : list Event) :
  StronglySorted timestamp_le (stable_sort l).
Proof.
  apply sort_keys_StronglySorted.
  - exact timestamp_le_trans.
  - intros a b H. apply Z.leb_le in H. exact H.
  - intros a b H. apply Z.leb_gt in H. unfold timestamp_le. lia.
Qed.

Lemma ascending_Sorted (l : list Event) :
  ascending l = true -> StronglySorted timestamp_le l.
Proof.
  intros H. apply Sorted_StronglySorted.
  { intros a b c. apply timestamp_le_trans. }
  induction l as [|x l IH]; [constructor|].
  destruct l as [|y l]; [repeat constructor|].
  cbn [ascending] in H. apply andb_prop in H. destruct H as [Hxy Hl].
  constructor; [now apply IH|].
  constructor. now apply Z.leb_le.
Qed.

Lemma take_out_Permutation (x : Event) (l l' : list Event) :
  take_out x l = Some l' -> Permutation l (x :: l').
Proof.
  revert l'. induction l as [|y l IH]; intros l' H; [discriminate|].
  cbn [take_out] in H. destruct (Event_eq_dec x y) as [->|_].
  - injection H as <-. apply Permutation_refl.
  - destruct (take_out x l) as [r|]; [|discriminate].
    injection H as <-.
    eapply perm_trans; [apply perm_skip, IH; reflexivity|].
    apply perm_swap.
Qed.

Lemma rearranges_Permutation (l r : list Event) :
  rearranges l r = true -> Permutation l r.
Proof.
  revert r. induction l as [|x l IH]; intros r H; cbn [rearranges] in H.
  - destruct r; [apply perm_nil|discriminate].
  - destruct (take_out x r) as [r'|] eqn:E; [|discriminate].
    eapply perm_trans; [apply perm_skip, IH, H|].
    apply Permutation_sym, take_out_Permutation, E.
Qed.

Lemma quicksort_values_Permutation (l : list Event) :
  Permutation l (quicksort_values l).
Proof.
  unfold quicksort_values.
  destruct (ascending (aquicksort l) && rearranges l (aquicksort l)) eqn:E.
  - apply andb_prop in E. now apply rearranges_Permutation.
  - apply sort_keys_Permutation.
Qed.

Lemma quicksort_values_Sorted (l : list Event) :
  StronglySorted timestamp_le (quicksort_values l).
Proof.
  unfold quicksort_values.
  destruct (ascending (aquicksort l) && rearranges l (aquicksort l)) eqn:E.
  - apply andb_prop in E. now apply ascending_Sorted.
  - apply stable_sort_Sorted.
Qed.

#[local] Instance stable_SortValues : SortValues :=
  {| sort_values := stable_sort;
     sort_values_Permutation := sort_keys_Permutation _ _;
     sort_values_Sorted := stable_sort_Sorted |}.

Lemma ascending_complete (l : list Event) :
  StronglySorted timestamp_le l -> ascending l = true.
Proof.
  induction 1 as [|x l Hs IH Hall]; [reflexivity|].
  destruct l as [|y l]; [reflexivity|].
  change (ascending (x :: y :: l))
    with ((row_timestamp x <=? row_timestamp y) && ascending (y :: l)).
  rewrite IH, andb_true_r.
  inversion Hall as [|? ? Hxy _]; subst. now apply Z.leb_le.
Qed.

Lemma take_out_complete (x : Event) (l : list Event) :
  In x l -> exists l', take_out x l = Some l'.
Proof.
  induction l as [|y l IH]; intros Hin; [destruct Hin|].
  cbn [take_out]. destruct (Event_eq_dec x y) as [E|N].
  - now exists l.
  - destruct Hin as [E|Hin]; [congruence|].
    destruct (IH Hin) as [l' ->]. now exists (y :: l').
Qed.

Lemma rearranges_complete (l : list Event) :
  forall r, Permutation l r -> rearranges l r = true.
Proof.
  induction l as [|x l IH]; intros r HP; cbn [rearranges].
  - apply Permutation_nil in HP. now subst.
  - destruct (take_out_complete x r) as [r' E].
    { eapply Permutation_in; [exact HP|now left]. }
    rewrite E. apply IH.
    apply (Permutation_cons_inv (a := x)).
    eapply perm_trans; [exact HP|].
    apply take_out_Permutation, E.
Qed.

(** [quicksort_values] is [aquicksort] wherever [aquicksort] sorts. *)
Lemma quicksort_values_aquicksort (l : list Event) :
  StronglySorted timestamp_le (aquicksort l) ->
  Permutation l (aquicksort l) ->
  quicksort_values l = aquicksort l.
Proof.
  intros Hs HP. unfold quicksort_values.
  now rewrite (ascending_complete _ Hs), (rearranges_complete _ _ HP).
Qed.

Definition quicksort_SortValues : SortValues :=
  {| sort_values := quicksort_values;
     sort_values_Permutation := quicksort_values_Permutation;
     sort_values_Sorted := quicksort_values_Sorted |}.

(* ================================================================== *)
(** ** Exact rational arithmetic as an instance of [Float64] *)

Lemma Q_minutes_nonneg (d : Z) :
  (0 <= Q_div60 (Q_total_seconds d))%Q <-> 0 <= d.
Proof.
  unfold Q_div60, Q_total_seconds.
  rewrite !Qred_correct.
  unfold Qle, Qdiv, Qmult, Qinv, inject_Z; simpl.
  lia.
Qed.


Lemma Q_duration_sign (d : Z) :
  Q_ltb0 (Q_div60 (Q_total_seconds d)) = (d <? 0).
Proof.
  unfold Q_ltb0.
  destruct (Z.ltb_spec d 0) as [H|H].
  - destruct (Qle_bool 0 _) eqn:E; [|reflexivity].
    apply Qle_bool_iff in E. apply (proj1 (Q_minutes_nonneg d)) in E. lia.
  - apply (proj2 (Q_minutes_nonneg d)) in H. apply Qle_bool_iff in H.
    rewrite H. reflexivity.
Qed.

Lemma round_half_even_nonneg (x : Q) : (0 <= x)%Q -> 0 <= round_half_even x.
Proof.
  intros H. unfold round_half_even.
  assert (0 <= Qfloor x).
  { change 0 with (Qfloor 0). apply Qfloor_resp_le, H. }
  destruct (Qcompare _ _); [destruct (Z.even _)|..]; lia.
Qed.

Lemma Q_round2_nonneg (x : Q) : Q_leb0 x = true -> Q_leb0 (Q_round2 x) = true.
Proof.
  unfold Q_leb0, Q_round2. rewrite !Qle_bool_iff. intros H.
  rewrite Qred_correct.
  assert (0 <= round_half_even (x * inject_Z 100)).
  { apply round_half_even_nonneg.
    apply Qmult_le_0_compat; [exact H|]. discriminate. }
  revert H0. generalize (round_half_even (x * inject_Z 100)). intros n Hn.
  unfold Qle, Qdiv, Qmult, Qinv, inject_Z; simpl. lia.
Qed.

Lemma Q_duration_nonneg (d : Z) :
  0 <= d -> Q_leb0 (Q_div60 (Q_total_seconds d)) = true.
Proof.
  intros H. apply Qle_bool_iff, Q_minutes_nonneg, H.
Qed.

#[local] Instance exact_Float64 : Float64 :=
  {| float := Q;
     total_seconds := Q_total_seconds;
     div60 := Q_div60;
     ltb0 := Q_ltb0;
     leb0 := Q_leb0;
     round2 := Q_round2;
     series_round2 := Q_round2;
     group_sum := Q_sum;
     isnan := fun _ => false;
     duration_sign := Q_duration_sign;
     duration_nonneg := Q_duration_nonneg;
     round2_nonneg := Q_round2_nonneg;
     nonneg_not_nan := fun _ _ => eq_refl |}.

(* ================================================================== *)
(** ** Sample data *)

Definition entry_label : string := "01 ENTRY".
Definition exit_label : string := "02 EXIT".

(** The rows of two plates, one of them a hazard plate; the last row is
    neither marker. *)
Definition sample_events : list Event :=
  [ mkEvent "AB 123" entry_label 10;
    mkEvent "4711" entry_label 15;
    mkEvent "AB 123" entry_label 20;
    mkEvent "AB 123" exit_label 60000000020;
    mkEvent "4711" exit_label 25;
    mkEvent "AB 123" exit_label 60000000030;
    mkEvent "AB 123" "03 PASS" 60000000040 ].

(** Eighteen rows of one plate that share a timestamp: an EXIT, an ENTRY,
    fourteen EXITs and two ENTRYs. *)
Definition tied_events : list Event :=
  mkEvent "AB" exit_label 10 :: mkEvent "AB" entry_label 10
  :: repeat (mkEvent "AB" exit_label 10) 14
  ++ [mkEvent "AB" entry_label 10; mkEvent "AB" entry_label 10].

(** Midnight at the start of the day [d] days after 1970-01-01. *)
Definition day (d : Z) : Timestamp := d * ns_per_day.

Definition minutes (m : Z) : Z := m * 60 * 1000000000.

(** Stays begun on 2024-01-05, 2024-01-20 and 2024-02-01, and one begun
    on 2024-01-31 at 23:30 that ends on 2024-02-01 at 00:30. *)
Definition sample_intervals : list Interval :=
  [ mkInterval "A" (day 19727) (day 19727 + minutes 60) (60 # 1)%Q;
    mkInterval "A" (day 19742) (day 19742 + minutes 30) (30 # 1)%Q;
    mkInterval "A" (day 19754) (day 19754 + minutes 90) (90 # 1)%Q;
    mkInterval "B" (day 19754 - minutes 30) (day 19754 + minutes 30)
      (60 # 1)%Q ].

(* ================================================================== *)
(** ** Definitions used to state the further properties *)

Definition plate_le (a b : string) : Prop := String.leb a b = true.

Definition key_le (a b : string * string) : Prop := key_leb a b = true.

(** A text is in normal form when stripping and upper-casing leave it as
    it is. *)
Definition normalized (s : string) : Prop := strip s = s /\ upper s = s.

(** The instants the walk still has before it: the open entry, then the
    rows. *)
Definition instants (o : option Timestamp) (rows : list Event) : list Z :=
  match o with
  | Some t => t :: map row_timestamp rows
  | None => map row_timestamp rows
  end.

(** The events of [pairs] of entry and exit times, for the plate [p]. *)
Definition visits_events (entry_marker exit_marker : string) (p : string)
  (pairs : list (Z * Z)) : list Event :=
  flat_map (fun ab => [mkEvent p entry_marker (fst ab);
                       mkEvent p exit_marker (snd ab)]) pairs.

Definition visits_instants (pairs : list (Z * Z)) : list Z :=
  flat_map (fun ab => [fst ab; snd ab]) pairs.

(** The rows [build_intervals] passes over: rows of a non-hazard plate
    whose event is neither marker. *)
Definition unrecognised (entry_marker exit_marker : string) (r : Event)
  : bool :=
  negb (isdigit (row_plate r)) &&
  negb (is_marker entry_marker exit_marker r).

(** A file that is read and has the three columns. *)
Definition usable {CL : Cells} (columns : ColumnMapping)
  (read : option Sheet) : bool :=
  match read with
  | None => false
  | Some frame =>
      match missing columns frame with
      | [] => true
      | _ :: _ => false
      end
  end.

(** The source folder is given: on the command line or in the file, and
    not as an empty text. *)
Definition source_given (raw_cfg : RawConfig) (overrides : Namespace)
  : bool :=
  truthy (arg_source_folder overrides) ||
  truthy (get (raw_source_folder raw_cfg)).

(** The output file is blank: not given on the command line, and present
    in the file as [null] or as an empty text. *)
Definition output_blank (raw_cfg : RawConfig) (overrides : Namespace)
  : bool :=
  negb (truthy (arg_output_file overrides)) &&
  match raw_output_file raw_cfg with
  | Missing => false
  | Null => true
  | Value s => negb (truthy (Some s))
  end.

(** The texts [normalize_config] hands to [_resolve_path] for the source
    folder and for the output file. *)
Definition source_text (raw_cfg : RawConfig) (overrides : Namespace)
  : option string :=
  py_or (arg_source_folder overrides) (get (raw_source_folder raw_cfg)).

Definition output_text (raw_cfg : RawConfig) (overrides : Namespace)
  : option string :=
  py_or (arg_output_file overrides)
        (get_default (raw_output_file raw_cfg)
           "output/parking_durations.xlsx"%string).

(** The text is a relative path on which [resolve] raises. *)
Definition unresolved {PL : PathLib} (config_base : Path)
  (value : option string) : bool :=
  match value with
  | Some (String c s) =>
      let candidate := Path_of (String c s) in
      negb (is_absolute candidate) &&
      match resolve_under config_base candidate with
      | Some _ => false
      | None => true
      end
  | _ => false
  end.

(** A match that [discover_excel_files] keeps: a regular file that is not
    the lock file of an open workbook. *)
Definition eligible {PL : PathLib} (file_path : Path) : bool :=
  is_file file_path && negb (startswith (name file_path) "~$"%string).

(* ================================================================== *)
(** ** A file system and sheets of text, to run the model *)

(** The part of a path after its last "/". *)
Fixpoint basename_from (acc s : string) : string :=
  match s with
  | EmptyString => acc
  | String c s' =>
      if Ascii.eqb c "/"
      then basename_from EmptyString s'
      else basename_from (acc ++ String c EmptyString) s'
  end.

Fixpoint has_NUL (s : string) : bool :=
  match s with
  | EmptyString => false
  | String c s' => Ascii.eqb c zero || has_NUL s'
  end.

(** Paths as text; a relative path with a NUL character does not resolve.
    A folder holds two workbooks and the lock file of one of them and, in
    a sub-folder, a third workbook. *)
#[local] Instance text_PathLib : PathLib :=
  {| Path := string;
     Path_of := fun s => s;
     is_absolute := fun p => startswith p "/";
     resolve_under := fun base p =>
       if has_NUL p then None else Some (base ++ "/" ++ p)%string;
     name := basename_from EmptyString;
     is_file := fun _ => true;
     glob := fun folder pattern =>
       map (fun n => (folder ++ "/" ++ n)%string)
         (if String.eqb pattern "*.xls*"
          then ["b.xlsx"; "~$b.xlsx"; "a.xls"]%string
          else ["b.xlsx"; "~$b.xlsx"; "a.xls"; "old/c.xlsx"]%string);
     path_leb := String.leb |}.

(** The number a text of decimal digits denotes. *)
Fixpoint decimal (acc : Z) (s : string) : option Z :=
  match s with
  | EmptyString => Some acc
  | String c s' =>
      if is_digit_char c
      then decimal (10 * acc + Z.of_nat (nat_of_ascii c - 48)) s'
      else None
  end.

(** A date cell that holds the minutes since the epoch, in digits;
    anything else is not a date. *)
Definition minutes_cell (c : option string) : option Timestamp :=
  match c with
  | Some (String a s) => option_map minutes (decimal 0 (String a s))
  | _ => None
  end.

(** Cells as text, [None] for an empty cell, which [astype(str)] prints
    as "nan" in a column of objects (pandas before version 3). *)
#[local] Instance text_Cells : Cells :=
  {| Cell := option string;
     isna := fun c => match c with None => true | Some _ => false end;
     astype_str :=
       fun c => match c with Some s => s | None => "nan"%string end;
     to_datetime := fun _ column => map minutes_cell column;
     to_datetime_length := fun _ column => length_map minutes_cell column |}.

Definition sample_row (p e t : option string) : string -> Cell :=
  fun label =>
    if String.eqb label "Plate" then p
    else if String.eqb label "Event" then e
    else if String.eqb label "Timestamp" then t
    else None.

(** A sheet with a stay of ["AB 123"] written in mixed case and with
    blanks, a row without plate and a row without a date. *)
Definition sample_sheet : Sheet :=
  mkSheet ["Plate"; "Event"; "Timestamp"; "Gate"]%string
    [ sample_row (Some " ab 123 ") (Some "01 entry") (Some "0");
      sample_row (Some "ab 123") (Some " 02 Exit ") (Some "90");
      sample_row None (Some "01 ENTRY") (Some "5");
      sample_row (Some "4711") (Some "01 ENTRY") (Some "soon") ]%string.

Definition sample_mapping : ColumnMapping :=
  mkColumnMapping "Plate" "Event" "Timestamp".

(** A configuration that names the source folder and the entry marker
    only, and a command line without options. *)
Definition sample_config : RawConfig :=
  mkRawConfig (Value "data"%string) Missing None (Value "01 entry"%string)
    Null Missing Missing.

Definition sample_args : Namespace := mkNamespace None None None false.

Definition sample_app_config : AppConfig :=
  mkAppConfig "/etc/data"%string
    "/etc/output/parking_durations.xlsx"%string
    sample_mapping "01 ENTRY" "02 EXIT" None false.

(** The frame of the issues sheet for one issue. *)
Definition sample_table : Table :=
  mkTable issue_columns
    [["AB 123"; ENTRY_WITHOUT_EXIT; "2024-01-05T00:00:00"]]%string.

(* ================================================================== *)
(** ** The output of [build_intervals], group by group *)

Section Walk.

Context {FL : Float64} {SV : SortValues}.
Variables entry_marker exit_marker : string.

#[local] Abbreviation step := (row_step entry_marker exit_marker).
#[local] Abbreviation group_step := (process_group entry_marker exit_marker).

Lemma Output_app_assoc (a b c : Output) :
  Output_app (Output_app a b) c = Output_app a (Output_app b c).
Proof. unfold Output_app; simpl. now rewrite !app_assoc. Qed.

Lemma Output_app_no_output_r (a : Output) : Output_app a no_output = a.
Proof. destruct a; unfold Output_app; simpl. now rewrite !app_nil_r. Qed.

Lemma Output_app_no_output_l (a : Output) : Output_app no_output a = a.
Proof. now destruct a. Qed.

Lemma add_issue_app (out : Output) (x : Issue) :
  add_issue out x = Output_app out (mkOutput [] [x]).
Proof. unfold add_issue, Output_app; simpl. now rewrite app_nil_r. Qed.

Lemma row_step_app (plate : string) (out : Output)
  (open_entry : option Timestamp) (row : Event) :
  step plate (out, open_entry) row =
  (Output_app out (fst (step plate (no_output, open_entry) row)),
   snd (step plate (no_output, open_entry) row)).
Proof.
  unfold row_step.
  destruct (String.eqb _ entry_marker); [|destruct (String.eqb _ exit_marker)];
    try destruct open_entry as [t|]; try destruct (ltb0 _);
    destruct out; unfold Output_app, add_issue, add_interval; simpl;
    now rewrite ?app_nil_r.
Qed.

Lemma fold_row_step_walk (plate : string) (rows : list Event) :
  forall out open_entry,
    close_entry plate (fold_left (step plate) rows (out, open_entry)) =
    Output_app out (walk entry_marker exit_marker plate open_entry rows).
Proof.
  induction rows as [|row rest IH]; intros out open_entry;
    cbn [fold_left walk].
  - unfold close_entry; simpl. destruct open_entry; simpl.
    + apply add_issue_app.
    + now rewrite Output_app_no_output_r.
  - rewrite row_step_app, IH. apply Output_app_assoc.
Qed.

Lemma fold_hazard_step (plate : string) (rows : list Event) :
  forall out,
    fold_left (hazard_step plate) rows out =
    Output_app out
      (mkOutput []
         (map (fun r => mkIssue plate HAZARD_PLATE (row_timestamp r)) rows)).
Proof.
  induction rows as [|row rest IH]; intros out; cbn [fold_left map].
  - symmetry. apply Output_app_no_output_r.
  - rewrite IH. unfold hazard_step. rewrite add_issue_app, Output_app_assoc.
    reflexivity.
Qed.

Lemma process_group_app (out : Output) (plate : string)
  (group : list Event) :
  group_step out (plate, group) =
  Output_app out (group_output entry_marker exit_marker plate group).
Proof.
  unfold process_group, group_output.
  destruct (isdigit plate).
  - apply fold_hazard_step.
  - rewrite <- fold_row_step_walk. unfold close_entry.
    destruct (fold_left _ _ _) as [out' [t|]]; reflexivity.
Qed.

Lemma fold_process_group (groups : list (string * list Event)) :
  forall out,
    fold_left group_step groups out =
    Output_app out (groups_output entry_marker exit_marker groups).
Proof.
  induction groups as [|[plate group] rest IH]; intros out;
    cbn [fold_left groups_output fold_right fst snd].
  - symmetry. apply Output_app_no_output_r.
  - rewrite process_group_app, IH. apply Output_app_assoc.
Qed.

End Walk.

(* ================================================================== *)
(** ** The part of the output that belongs to one plate *)

Section PerPlate.

Context {FL : Float64} {SV : SortValues}.
Variables entry_marker exit_marker : string.

Lemma output_of_plate_app (p : string) (a b : Output) :
  output_of_plate p a -> output_of_plate p b ->
  output_of_plate p (Output_app a b).
Proof.
  intros [Ha1 Ha2] [Hb1 Hb2]. split; simpl; apply Forall_app; auto.
Qed.

Lemma row_step_of_plate (p : string) (o : option Timestamp) (row : Event) :
  output_of_plate p
    (fst (row_step entry_marker exit_marker p (no_output, o) row)).
Proof.
  unfold row_step.
  destruct (String.eqb _ entry_marker); [|destruct (String.eqb _ exit_marker)];
    try destruct o as [t|]; try destruct (ltb0 _);
    split; simpl; repeat constructor.
Qed.

Lemma walk_of_plate (p : string) (rows : list Event) :
  forall o, output_of_plate p (walk entry_marker exit_marker p o rows).
Proof.
  induction rows as [|row rest IH]; intros o; cbn [walk].
  - destruct o; split; simpl; repeat constructor.
  - apply output_of_plate_app; [apply row_step_of_plate | apply IH].
Qed.

Lemma group_output_of_plate (p : string) (group : list Event) :
  output_of_plate p (group_output entry_marker exit_marker p group).
Proof.
  unfold group_output. destruct (isdigit p).
  - split; simpl; [constructor|].
    apply Forall_map, Forall_forall. reflexivity.
  - apply walk_of_plate.
Qed.

Lemma filter_all {A : Type} (f : A -> bool) (l : list A) :
  Forall (fun a => f a = true) l -> filter f l = l.
Proof.
  induction 1 as [|a l Ha _ IH]; simpl; [reflexivity|].
  now rewrite Ha, IH.
Qed.

Lemma filter_none {A : Type} (f : A -> bool) (l : list A) :
  Forall (fun a => f a = false) l -> filter f l = [].
Proof.
  induction 1 as [|a l Ha _ IH]; simpl; [reflexivity|].
  now rewrite Ha, IH.
Qed.

Lemma output_of_plate_same (p : string) (out : Output) :
  output_of_plate p out ->
  intervals_of p (intervals out) = intervals out /\
  issues_of p (issues out) = issues out.
Proof.
  intros [H1 H2]. split; apply filter_all.
  - eapply Forall_impl; [|exact H1]. intros i Hi. now apply String.eqb_eq.
  - eapply Forall_impl; [|exact H2]. intros x Hx. now apply String.eqb_eq.
Qed.

Lemma output_of_plate_other (p q : string) (out : Output) :
  q <> p -> output_of_plate q out ->
  intervals_of p (intervals out) = [] /\ issues_of p (issues out) = [].
Proof.
  intros Hqp [H1 H2]. split; apply filter_none.
  - eapply Forall_impl; [|exact H1]. intros i Hi.
    apply String.eqb_neq. congruence.
  - eapply Forall_impl; [|exact H2]. intros x Hx.
    apply String.eqb_neq. congruence.
Qed.

(** Among the outputs of groups with distinct keys, the records of plate
    [p] are those of the group of [p]. *)
Lemma groups_output_of (p : string) (group : string -> list Event)
  (keys : list string) :
  NoDup keys ->
  let out := groups_output entry_marker exit_marker
               (map (fun k => (k, group k)) keys) in
  let own := if in_dec string_dec p keys
             then group_output entry_marker exit_marker p (group p)
             else no_output in
  intervals_of p (intervals out) = intervals own /\
  issues_of p (issues out) = issues own.
Proof.
  induction 1 as [|k keys Hk Hnd IH];
    cbn [map groups_output fold_right fst snd].
  - destruct (in_dec string_dec p []) as [[]|]. split; reflexivity.
  - cbn zeta in IH. destruct IH as [IH1 IH2].
    unfold intervals_of, issues_of in *. cbn [Output_app intervals issues].
    rewrite !filter_app.
    fold (groups_output entry_marker exit_marker
            (map (fun k => (k, group k)) keys)).
    rewrite IH1, IH2.
    destruct (string_dec k p) as [->|Hne].
    + destruct (output_of_plate_same p _ (group_output_of_plate p (group p)))
        as [E1 E2].
      unfold intervals_of, issues_of in E1, E2. rewrite E1, E2.
      destruct (in_dec string_dec p keys) as [Hin|_]; [contradiction|].
      destruct (in_dec string_dec p (p :: keys)) as [_|Hn];
        [|exfalso; apply Hn; now left].
      simpl. now rewrite !app_nil_r.
    + destruct (output_of_plate_other p k _ Hne
                  (group_output_of_plate k (group k))) as [E1 E2].
      unfold intervals_of, issues_of in E1, E2. rewrite E1, E2.
      destruct (in_dec string_dec p keys) as [Hin|Hnin];
        destruct (in_dec string_dec p (k :: keys)) as [Hin'|Hnin'];
        try (split; reflexivity).
      * exfalso. apply Hnin'. now right.
      * destruct Hin' as [->|]; contradiction.
Qed.

Lemma group_keys_NoDup (events : list Event) : NoDup (group_keys events).
Proof.
  unfold group_keys.
  eapply Permutation_NoDup; [apply sort_keys_Permutation|].
  apply NoDup_nodup.
Qed.

Lemma group_keys_In (p : string) (events : list Event) :
  In p (group_keys events) <-> In p (map row_plate events).
Proof.
  unfold group_keys. split; intros H.
  - apply (nodup_In string_dec).
    eapply Permutation_in; [|exact H].
    apply Permutation_sym, sort_keys_Permutation.
  - apply (nodup_In string_dec) in H.
    eapply Permutation_in; [|exact H]. apply sort_keys_Permutation.
Qed.

Lemma rows_DataFrame_of_records {A : Type} (keys : list string)
  (l : list A) : rows (DataFrame_of_records keys l) = l.
Proof. now destruct l. Qed.

(** The rows and issues [build_intervals] returns, as the outputs of the
    groups. *)
Lemma build_intervals_groups (events : list Event) :
  let out := groups_output entry_marker exit_marker (groupby events) in
  rows (fst (build_intervals entry_marker exit_marker events)) =
    intervals out /\
  snd (build_intervals entry_marker exit_marker events) = issues out.
Proof.
  destruct events as [|e events]; [split; reflexivity|].
  unfold build_intervals.
  rewrite (fold_process_group entry_marker exit_marker _ (mkOutput [] [])).
  fold no_output. rewrite Output_app_no_output_l.
  cbn [fst snd]. rewrite rows_DataFrame_of_records. split; reflexivity.
Qed.

Lemma get_group_absent (p : string) (events : list Event) :
  ~ In p (map row_plate events) -> get_group p events = [].
Proof.
  intros Hnin. unfold get_group. apply filter_none, Forall_forall.
  intros r Hr. apply String.eqb_neq. intros E. apply Hnin.
  rewrite <- E. now apply in_map.
Qed.

Lemma group_output_nil (p : string) :
  group_output entry_marker exit_marker p [] = no_output.
Proof.
  unfold group_output.
  rewrite (Permutation_nil (sort_values_Permutation [])).
  now destruct (isdigit p).
Qed.

(** The intervals and issues of a plate are the output of its group. *)
Lemma build_intervals_of_plate (p : string) (events : list Event) :
  let own := group_output entry_marker exit_marker p (get_group p events) in
  intervals_of p
    (rows (fst (build_intervals entry_marker exit_marker events))) =
    intervals own /\
  issues_of p (snd (build_intervals entry_marker exit_marker events)) =
    issues own.
Proof.
  cbn zeta.
  destruct (build_intervals_groups events) as [-> ->].
  unfold groupby.
  destruct (groups_output_of p (fun k => get_group k events)
              (group_keys events) (group_keys_NoDup events)) as [E1 E2].
  rewrite E1, E2.
  destruct (in_dec string_dec p (group_keys events)) as [_|Hn].
  - split; reflexivity.
  - rewrite get_group_absent, group_output_nil; [split; reflexivity|].
    intros Hin. apply Hn, group_keys_In, Hin.
Qed.

End PerPlate.

(* ================================================================== *)
(** ** Sorting a chronological sequence, and inputs with a single plate *)

(** Rows in ascending order whose timestamps are pairwise distinct are in
    strictly ascending order. *)
Lemma StronglySorted_le_lt (l : list Event) :
  NoDup (map row_timestamp l) ->
  StronglySorted timestamp_le l -> StronglySorted timestamp_lt l.
Proof.
  induction l as [|a l IH]; intros Hnd Hs; [constructor|].
  inversion Hnd as [|? ? Hnotin Hnd']; subst.
  inversion Hs as [|? ? Hs' Hall]; subst.
  constructor; [now apply IH|].
  apply Forall_forall. intros b Hb.
  rewrite Forall_forall in Hall. specialize (Hall b Hb).
  unfold timestamp_le in Hall. unfold timestamp_lt.
  assert (row_timestamp a <> row_timestamp b).
  { intros E. apply Hnotin. rewrite E. now apply in_map. }
  lia.
Qed.

(** A strictly ascending sequence has a single ascending arrangement. *)
Lemma strictly_sorted_unique (l1 : list Event) :
  forall l2, StronglySorted timestamp_lt l1 -> StronglySorted timestamp_lt l2 ->
  Permutation l1 l2 -> l1 = l2.
Proof.
  induction l1 as [|a l1 IH]; intros l2 H1 H2 HP.
  - apply Permutation_nil in HP. now subst.
  - destruct l2 as [|b l2].
    { apply Permutation_sym, Permutation_nil in HP. discriminate. }
    inversion H1 as [|? ? H1' Hall1]; subst.
    inversion H2 as [|? ? H2' Hall2]; subst.
    rewrite Forall_forall in Hall1, Hall2.
    assert (a = b) as ->.
    { assert (Ha : In a (b :: l2))
        by (eapply Permutation_in; [exact HP|now left]).
      assert (Hb : In b (a :: l1))
        by (eapply Permutation_in; [apply Permutation_sym, HP|now left]).
      destruct Ha as [Ha|Ha]; [now subst|].
      destruct Hb as [Hb|Hb]; [now subst|].
      apply Hall2 in Ha. apply Hall1 in Hb.
      unfold timestamp_lt in *. lia. }
    f_equal. apply IH; [assumption..|].
    eapply Permutation_cons_inv, HP.
Qed.

(** [sort_values] leaves a strictly chronological sequence as it is. *)
Lemma sort_values_chronological {SV : SortValues} (l : list Event) :
  StronglySorted timestamp_lt l -> sort_values l = l.
Proof.
  intros Hl. symmetry.
  apply strictly_sorted_unique; [exact Hl| |apply sort_values_Permutation].
  apply StronglySorted_le_lt; [|apply sort_values_Sorted].
  eapply Permutation_NoDup.
  - apply Permutation_map, sort_values_Permutation.
  - clear -Hl. induction Hl as [|a l _ IH Hall]; simpl; constructor.
    + intros Hin. apply in_map_iff in Hin. destruct Hin as [b [Eb Hb]].
      rewrite Forall_forall in Hall. apply Hall in Hb.
      unfold timestamp_lt in Hb. lia.
    + exact IH.
Qed.

Lemma nodup_constant (p : string) (l : list string) :
  l <> [] -> Forall (fun q => q = p) l -> nodup string_dec l = [p].
Proof.
  induction l as [|q l IH]; intros Hne Hall; [contradiction|].
  inversion Hall as [|q0 l0 Hq Hall' [E1 E2]]. rewrite Hq. simpl.
  destruct l as [|q' l].
  - reflexivity.
  - destruct (in_dec string_dec p (q' :: l)) as [_|Hn].
    + apply IH; [discriminate|exact Hall'].
    + exfalso. apply Hn. inversion Hall' as [|q1 l1 Hq' _ [E3 E4]].
      left. exact Hq'.
Qed.

(** A non-empty input whose rows all carry the plate [p] is one group. *)
Lemma groupby_single (p : string) (events : list Event) :
  events <> [] -> Forall (fun r => row_plate r = p) events ->
  groupby events = [(p, events)].
Proof.
  intros Hne Hall. unfold groupby, group_keys.
  rewrite (nodup_constant p).
  - simpl. unfold get_group. rewrite filter_all; [reflexivity|].
    eapply Forall_impl; [|exact Hall]. intros r Hr. now apply String.eqb_eq.
  - destruct events; [contradiction|discriminate].
  - apply Forall_map. exact Hall.
Qed.

(* ================================================================== *)
(** ** The rules of the walk *)

Section Rules.

Context {FL : Float64} {SV : SortValues}.
Variables entry_marker exit_marker : string.

#[local] Abbreviation kind := (kind_of entry_marker exit_marker).
#[local] Abbreviation step := (row_step entry_marker exit_marker).
#[local] Abbreviation build := (build_intervals entry_marker exit_marker).

Lemma step_entry (plate : string) (out : Output) (o : option Timestamp)
  (row : Event) :
  kind (row_event row) = ENTRY ->
  step plate (out, o) row =
  (match o with
   | Some t => add_issue out (mkIssue plate CONSECUTIVE_ENTRY t)
   | None => out
   end, Some (row_timestamp row)).
Proof.
  unfold kind_of, row_step.
  destruct (String.eqb _ entry_marker);
    [|destruct (String.eqb _ exit_marker); discriminate].
  intros _. now destruct o.
Qed.

Lemma step_exit (plate : string) (out : Output) (o : option Timestamp)
  (row : Event) :
  kind (row_event row) = EXIT ->
  step plate (out, o) row =
  match o with
  | None =>
      (add_issue out (mkIssue plate EXIT_WITHOUT_ENTRY (row_timestamp row)),
       None)
  | Some t =>
      if ltb0 (div60 (total_seconds (row_timestamp row - t))) then
        (add_issue out (mkIssue plate EXIT_BEFORE_ENTRY (row_timestamp row)),
         None)
      else
        (add_interval out
           (mkInterval plate t (row_timestamp row)
              (round2 (div60 (total_seconds (row_timestamp row - t))))),
         None)
  end.
Proof.
  unfold kind_of, row_step.
  destruct (String.eqb _ entry_marker); [discriminate|].
  destruct (String.eqb _ exit_marker); [|discriminate].
  reflexivity.
Qed.

Lemma step_other (plate : string) (st : Output * option Timestamp)
  (row : Event) :
  kind (row_event row) = OTHER -> step plate st row = st.
Proof.
  unfold kind_of, row_step. destruct st as [out o].
  destruct (String.eqb _ entry_marker); [discriminate|].
  destruct (String.eqb _ exit_marker); [discriminate|].
  reflexivity.
Qed.

Lemma kind_entry_marker : kind entry_marker = ENTRY.
Proof. unfold kind_of. now rewrite String.eqb_refl. Qed.

Lemma kind_exit_marker :
  entry_marker <> exit_marker -> kind exit_marker = EXIT.
Proof.
  intros H. unfold kind_of.
  rewrite (proj2 (String.eqb_neq exit_marker entry_marker)) by congruence.
  now rewrite String.eqb_refl.
Qed.

(** The whole result for an input of one non-hazard plate. *)
Lemma build_single_plate (p : string) (events : list Event) :
  events <> [] -> Forall (fun r => row_plate r = p) events ->
  isdigit p = false ->
  build events =
  (DataFrame_of_records interval_columns
     (intervals (walk entry_marker exit_marker p None (sort_values events))),
   issues (walk entry_marker exit_marker p None (sort_values events))).
Proof.
  intros Hne Hall Hp. unfold build_intervals.
  destruct events as [|e events]; [contradiction|].
  rewrite (groupby_single p) by assumption.
  cbn [fold_left]. rewrite process_group_app.
  unfold group_output. rewrite Hp.
  fold no_output. rewrite Output_app_no_output_l. reflexivity.
Qed.

End Rules.

(* ================================================================== *)
(** ** The rules of the walk, claim by claim *)

Section RuleClaims.

Context {FL : Float64} {SV : SortValues}.
Variables entry_marker exit_marker : string.

#[local] Abbreviation kind := (kind_of entry_marker exit_marker).
#[local] Abbreviation step := (row_step entry_marker exit_marker).
#[local] Abbreviation build := (build_intervals entry_marker exit_marker).

Lemma walk_skips_other (plate : string) (rows : list Event) :
  forall o,
    walk entry_marker exit_marker plate o rows =
    walk entry_marker exit_marker plate o
      (filter (is_marker entry_marker exit_marker) rows).
Proof.
  induction rows as [|row rest IH]; intros o; [reflexivity|].
  cbn [filter]. unfold is_marker at 1.
  destruct (String.eqb (row_event row) entry_marker) eqn:E1;
    [|destruct (String.eqb (row_event row) exit_marker) eqn:E2];
    cbn [orb walk]; try now rewrite IH.
  rewrite step_other.
  - cbn [fst snd]. rewrite Output_app_no_output_l. apply IH.
  - unfold kind_of. now rewrite E1, E2.
Qed.

(** C4.  An ENTRY met while an earlier ENTRY is open appends one
    "Consecutive ENTRY without EXIT" issue stamped with the time of the
    earlier, open entry, and the slot then holds the time of the new ENTRY.
    In particular, for a non-hazard plate, the chronological sequence
    ENTRY at t1, ENTRY at t2, EXIT at t3 (t1 < t2 < t3) gives exactly one
    such issue, at t1, and exactly one interval, from t2 to t3. *)
Theorem consecutive_entry_flags_previous_entry :
  (forall (plate : string) (out : Output) (t0 : Timestamp) (row : Event),
     kind (row_event row) = ENTRY ->
     step plate (out, Some t0) row =
     (add_issue out (mkIssue plate CONSECUTIVE_ENTRY t0),
      Some (row_timestamp row))) /\
  (forall (p : string) (t1 t2 t3 : Timestamp),
     isdigit p = false -> entry_marker <> exit_marker ->
     t1 < t2 -> t2 < t3 ->
     build [mkEvent p entry_marker t1; mkEvent p entry_marker t2;
            mkEvent p exit_marker t3] =
     (mkFrame interval_columns
        [mkInterval p t2 t3 (round2 (div60 (total_seconds (t3 - t2))))],
      [mkIssue p CONSECUTIVE_ENTRY t1])).
Proof.
  split.
  - intros plate out t0 row Hk. now rewrite step_entry.
  - intros p t1 t2 t3 Hp Hm H12 H23.
    rewrite (build_single_plate _ _ p);
      [|discriminate|repeat constructor|exact Hp].
    rewrite sort_values_chronological.
    2:{ repeat constructor; unfold timestamp_lt; simpl; lia. }
    cbn [walk].
    rewrite !step_entry by apply kind_entry_marker.
    cbn [fst snd].
    rewrite step_exit by (apply kind_exit_marker, Hm).
    cbn [row_timestamp fst snd].
    rewrite duration_sign.
    destruct (Z.ltb_spec (t3 - t2) 0) as [Hneg|_]; [lia|].
    reflexivity.
Qed.

(** C7.  An EXIT met while no entry is open appends exactly one
    "EXIT without matching ENTRY" issue stamped with the EXIT's own time,
    appends no interval, leaves the slot closed, and the walk goes on with
    the next row.  In particular a lone EXIT of a non-hazard plate gives
    that one issue and no interval. *)
Theorem exit_without_open_entry :
  (forall (plate : string) (out : Output) (row : Event) (rest : list Event),
     kind (row_event row) = EXIT ->
     let flagged :=
       mkOutput (intervals out)
         (issues out ++
          [mkIssue plate EXIT_WITHOUT_ENTRY (row_timestamp row)]) in
     step plate (out, None) row = (flagged, None) /\
     fold_left (step plate) (row :: rest) (out, None) =
     fold_left (step plate) rest (flagged, None)) /\
  (forall (p : string) (t1 : Timestamp),
     isdigit p = false -> entry_marker <> exit_marker ->
     rows (fst (build [mkEvent p exit_marker t1])) = [] /\
     snd (build [mkEvent p exit_marker t1]) =
     [mkIssue p EXIT_WITHOUT_ENTRY t1]).
Proof.
  split.
  - intros plate out row rest Hk flagged.
    assert (E : step plate (out, None) row = (flagged, None))
      by now rewrite step_exit.
    split; [exact E|]. cbn [fold_left]. now rewrite E.
  - intros p t1 Hp Hm.
    rewrite (build_single_plate _ _ p);
      [|discriminate|repeat constructor|exact Hp].
    rewrite sort_values_chronological by repeat constructor.
    cbn [walk]. rewrite step_exit by (apply kind_exit_marker, Hm).
    cbn [fst snd]. rewrite rows_DataFrame_of_records. split; reflexivity.
Qed.

(** C8.  An EXIT matched against an open entry whose computed duration is
    negative appends one "EXIT earlier than ENTRY" issue stamped with the
    EXIT's time, appends no interval and clears the slot.  The computed
    duration is negative exactly when the EXIT's time is before the open
    entry's. *)
Theorem exit_earlier_than_entry (plate : string) (out : Output)
  (t : Timestamp) (row : Event) :
  kind (row_event row) = EXIT ->
  ltb0 (div60 (total_seconds (row_timestamp row - t))) = true ->
  step plate (out, Some t) row =
  (mkOutput (intervals out)
     (issues out ++ [mkIssue plate EXIT_BEFORE_ENTRY (row_timestamp row)]),
   None) /\
  row_timestamp row < t.
Proof.
  intros Hk Hneg. split.
  - rewrite step_exit by exact Hk. now rewrite Hneg.
  - rewrite duration_sign in Hneg. apply Z.ltb_lt in Hneg. lia.
Qed.

(** C10.  A row of a non-hazard plate whose event string is neither marker
    is skipped: the two output lists and the open slot stay exactly as they
    were.  Hence the intervals and issues of the plate are those of the
    walk over its marker rows alone. *)
Theorem unrecognised_event_is_skipped :
  (forall (plate : string) (out : Output) (o : option Timestamp)
     (row : Event),
     row_event row <> entry_marker -> row_event row <> exit_marker ->
     step plate (out, o) row = (out, o)) /\
  (forall (p : string) (events : list Event),
     isdigit p = false ->
     let marked := filter (is_marker entry_marker exit_marker)
                     (sort_values (get_group p events)) in
     intervals_of p (rows (fst (build events))) =
       intervals (walk entry_marker exit_marker p None marked) /\
     issues_of p (snd (build events)) =
       issues (walk entry_marker exit_marker p None marked)).
Proof.
  split.
  - intros plate out o row H1 H2. apply step_other.
    unfold kind_of.
    now rewrite (proj2 (String.eqb_neq _ _) H1),
                (proj2 (String.eqb_neq _ _) H2).
  - intros p events Hp marked.
    destruct (build_intervals_of_plate entry_marker exit_marker p events)
      as [E1 E2].
    rewrite E1, E2. unfold group_output. rewrite Hp.
    unfold marked. now rewrite <- walk_skips_other.
Qed.

End RuleClaims.

(* ================================================================== *)
(** ** Emitted intervals, and hazard plates *)

Section IntervalClaims.

Context {FL : Float64} {SV : SortValues}.
Variables entry_marker exit_marker : string.

#[local] Abbreviation step := (row_step entry_marker exit_marker).
#[local] Abbreviation build := (build_intervals entry_marker exit_marker).

Lemma row_step_well_formed (plate : string) (o : option Timestamp)
  (row : Event) :
  Forall well_formed_interval
    (intervals (fst (step plate (no_output, o) row))).
Proof.
  unfold row_step.
  destruct (String.eqb _ entry_marker); [|destruct (String.eqb _ exit_marker)];
    try destruct o as [t|]; try (simpl; constructor; fail).
  destruct (ltb0 _) eqn:Hneg; simpl; constructor; [|constructor].
  rewrite duration_sign in Hneg. apply Z.ltb_ge in Hneg.
  unfold well_formed_interval; simpl. split; [lia|]. split; [reflexivity|].
  apply round2_nonneg, duration_nonneg, Hneg.
Qed.

Lemma walk_well_formed (plate : string) (rows : list Event) :
  forall o,
    Forall well_formed_interval
      (intervals (walk entry_marker exit_marker plate o rows)).
Proof.
  induction rows as [|row rest IH]; intros o; cbn [walk].
  - destruct o; constructor.
  - cbn [Output_app intervals]. apply Forall_app. split.
    + apply row_step_well_formed.
    + apply IH.
Qed.

Lemma groups_output_well_formed (groups : list (string * list Event)) :
  Forall well_formed_interval
    (intervals (groups_output entry_marker exit_marker groups)).
Proof.
  induction groups as [|[p g] rest IH]; cbn [groups_output fold_right].
  - constructor.
  - cbn [Output_app intervals fst snd]. apply Forall_app. split; [|exact IH].
    unfold group_output. destruct (isdigit p).
    + constructor.
    + apply walk_well_formed.
Qed.

(** C6.  Every interval [build_intervals] returns has its exit time at or
    after its entry time, a duration in minutes that is the difference of
    the two rounded to two decimals, and that duration is not negative. *)
Theorem emitted_intervals_are_well_formed (events : list Event)
  (i : Interval) :
  In i (rows (fst (build events))) ->
  entry_time i <= exit_time i /\
  duration_minutes i =
    round2 (div60 (total_seconds (exit_time i - entry_time i))) /\
  leb0 (duration_minutes i) = true.
Proof.
  intros Hin.
  destruct (build_intervals_groups entry_marker exit_marker events)
    as [E _].
  rewrite E in Hin.
  pose proof (groups_output_well_formed (groupby events)) as Hall.
  rewrite Forall_forall in Hall. exact (Hall i Hin).
Qed.

(** C3.  For a plate made of digits only, the issues of the plate are one
    "Hazard plate number" issue per event of the plate, each stamped with
    the time of its event (in the order [sort_values] gives the events),
    and the plate has no interval. *)
Theorem hazard_plate_events_are_flagged (p : string)
  (events : list Event) :
  isdigit p = true ->
  let flag := fun r => mkIssue p HAZARD_PLATE (row_timestamp r) in
  intervals_of p (rows (fst (build events))) = [] /\
  issues_of p (snd (build events)) =
    map flag (sort_values (get_group p events)) /\
  Permutation (issues_of p (snd (build events)))
    (map flag (get_group p events)) /\
  List.length (issues_of p (snd (build events))) =
    List.length (get_group p events).
Proof.
  intros Hp flag.
  destruct (build_intervals_of_plate entry_marker exit_marker p events)
    as [-> ->].
  unfold group_output. rewrite Hp. cbn [intervals issues].
  repeat split.
  - apply Permutation_map, Permutation_sym, sort_values_Permutation.
  - rewrite length_map. apply Permutation_length, Permutation_sym,
      sort_values_Permutation.
Qed.

End IntervalClaims.

(* ================================================================== *)
(** ** Accounting for every event of a plate *)

Section Accounting.

Context {FL : Float64} {SV : SortValues}.
Variables entry_marker exit_marker : string.

#[local] Abbreviation kind := (kind_of entry_marker exit_marker).
#[local] Abbreviation step := (row_step entry_marker exit_marker).
#[local] Abbreviation build := (build_intervals entry_marker exit_marker).

(** The ledger replays the walk: its records are the records of the walk,
    in the same order. *)
Lemma ledger_walk (plate : string) (rows : list Event) :
  forall open_row,
    walk entry_marker exit_marker plate
      (option_map row_timestamp open_row) rows =
    let book := ledger entry_marker exit_marker plate open_row rows in
    mkOutput (flat_map account_intervals book)
             (flat_map account_issues book).
Proof.
  induction rows as [|row rest IH]; intros open_row; cbn [walk ledger].
  - now destruct open_row.
  - pose proof (IH (Some row)) as IHs. pose proof (IH None) as IHn.
    cbn [option_map] in IHs, IHn.
    destruct (kind (row_event row)) eqn:Hk.
    + rewrite step_entry by exact Hk. cbn [fst snd]. rewrite IHs.
      destruct open_row; reflexivity.
    + rewrite step_exit by exact Hk.
      destruct open_row as [e|]; cbn [option_map].
      * destruct (ltb0 _); cbn [fst snd]; rewrite IHn; reflexivity.
      * cbn [fst snd]. rewrite IHn. reflexivity.
    + rewrite step_other by exact Hk. cbn [fst snd].
      rewrite IH. reflexivity.
Qed.

(** Every row, the open one included, is a source of exactly one entry. *)
Lemma ledger_sources (plate : string) (rows : list Event) :
  forall open_row,
    Permutation
      (flat_map sources (ledger entry_marker exit_marker plate open_row rows))
                (open_rows open_row ++ rows).
Proof.
  induction rows as [|row rest IH]; intros open_row; cbn [ledger].
  - destruct open_row; apply Permutation_refl.
  - destruct (kind (row_event row)).
    + destruct open_row as [e|]; cbn [flat_map sources open_rows app].
      * apply perm_skip. apply (IH (Some row)).
      * apply (IH (Some row)).
    + destruct open_row as [e|].
      * destruct (ltb0 _); cbn [flat_map sources open_rows app];
          do 2 apply perm_skip; apply (IH None).
      * cbn [flat_map sources open_rows app]. apply perm_skip, (IH None).
    + cbn [flat_map sources app].
      eapply perm_trans; [apply perm_skip, IH|].
      apply Permutation_middle.
Qed.

(** On rows in ascending order that are all markers, no entry of the
    ledger is a rejected pair or a skipped row. *)
Lemma ledger_accounts (plate : string) (rows : list Event) :
  forall open_row,
    Forall (fun r => kind (row_event r) = ENTRY) (open_rows open_row) ->
    Forall (fun r => kind (row_event r) <> OTHER) rows ->
    StronglySorted timestamp_le (open_rows open_row ++ rows) ->
    Forall (accounts_for entry_marker exit_marker plate)
           (ledger entry_marker exit_marker plate open_row rows).
Proof.
  induction rows as [|row rest IH]; intros open_row Ho Hm Hs; cbn [ledger].
  - destruct open_row; repeat constructor.
  - inversion Hm as [|? ? Hrow Hrest]; subst.
    assert (Hs' : StronglySorted timestamp_le (row :: rest)).
    { destruct open_row; [|exact Hs]. now inversion Hs. }
    assert (Hs'' : StronglySorted timestamp_le rest) by now inversion Hs'.
    destruct (kind (row_event row)) eqn:Hk; [| |contradiction].
    + assert (Hnext :
        Forall (accounts_for entry_marker exit_marker plate)
               (ledger entry_marker exit_marker plate (Some row) rest)).
      { apply IH; [repeat constructor; exact Hk|exact Hrest|exact Hs']. }
      destruct open_row; [constructor|]; try exact Hnext.
      split; reflexivity.
    + assert (Hnext : Forall (accounts_for entry_marker exit_marker plate)
                        (ledger entry_marker exit_marker plate None rest)).
      { apply IH; [constructor|exact Hrest|exact Hs'']. }
      destruct open_row as [e|].
      * inversion Ho as [|? ? He _]; subst.
        inversion Hs as [|? ? _ Hle]; subst.
        inversion Hle as [|? ? Her _]; subst. unfold timestamp_le in Her.
        rewrite duration_sign.
        destruct (Z.ltb_spec (row_timestamp row - row_timestamp e) 0);
          [lia|].
        constructor; [|exact Hnext]. repeat split; assumption.
      * constructor; [|exact Hnext]. split; reflexivity.
Qed.

(** The number of rows accounted for, in records of the output. *)
Lemma ledger_count (plate : string) (l : list Account) :
  Forall (accounts_for entry_marker exit_marker plate) l ->
  List.length (flat_map sources l) =
  (2 * List.length (flat_map account_intervals l) +
   List.length (flat_map account_issues l))%nat.
Proof.
  induction 1 as [|a l Ha _ IH]; [reflexivity|].
  cbn [flat_map]. rewrite !length_app, IH.
  destruct a; simpl in *; try contradiction; lia.
Qed.

Lemma get_group_plate_events (p : string) (events : list Event) :
  get_group p events = plate_events p events.
Proof.
  unfold get_group, plate_events. apply filter_ext. intros r.
  destruct (string_dec (row_plate r) p) as [E|N].
  - now apply String.eqb_eq.
  - now apply String.eqb_neq.
Qed.

(** C1.  For a non-hazard plate whose events in the input all carry the
    entry or the exit marker, the walk of [build_intervals] over these
    events in ascending order, replayed with the source rows kept, gives
    the intervals and the issues returned for the plate, every one of them
    either an interval built from one ENTRY row and one EXIT row or an
    issue raised for one row and stamped with its time; the rows so
    accounted for are the rows of the input that carry the plate, each
    exactly once.  Hence these rows number twice the intervals of the
    plate plus its issues. *)
Theorem every_event_is_accounted_once (p : string) (events : list Event) :
  isdigit p = false ->
  Forall (fun r => row_plate r = p ->
                   row_event r = entry_marker \/ row_event r = exit_marker)
         events ->
  let book := ledger entry_marker exit_marker p None
                (sort_values (plate_events p events)) in
  intervals_of p (rows (fst (build events))) =
    flat_map account_intervals book /\
  issues_of p (snd (build events)) = flat_map account_issues book /\
  Forall (accounts_for entry_marker exit_marker p) book /\
  Permutation (flat_map sources book) (plate_events p events) /\
  List.length (plate_events p events) =
    (2 * List.length (intervals_of p (rows (fst (build events)))) +
     List.length (issues_of p (snd (build events))))%nat.
Proof.
  intros Hp Hmarkers book.
  destruct (build_intervals_of_plate entry_marker exit_marker p events)
    as [E1 E2].
  unfold group_output in E1, E2. rewrite Hp in E1, E2.
  rewrite get_group_plate_events in E1, E2.
  pose proof (ledger_walk p (sort_values (plate_events p events)) None)
    as Hw.
  cbn [option_map] in Hw. fold book in Hw.
  rewrite Hw in E1. rewrite Hw in E2. cbn [intervals issues] in E1, E2.
  assert (Hacc : Forall (accounts_for entry_marker exit_marker p) book).
  { apply ledger_accounts.
    - constructor.
    - eapply Permutation_Forall; [apply sort_values_Permutation|].
      apply Forall_forall. intros r Hr.
      unfold plate_events in Hr. apply filter_In in Hr.
      destruct Hr as [Hin Hpl].
      destruct (string_dec (row_plate r) p) as [Ep|]; [|discriminate].
      rewrite Forall_forall in Hmarkers.
      destruct (Hmarkers r Hin Ep) as [Hr|Hr]; intros Hk;
        unfold kind_of in Hk; rewrite Hr in Hk.
      + now rewrite String.eqb_refl in Hk.
      + rewrite String.eqb_refl in Hk.
        now destruct (String.eqb exit_marker entry_marker).
    - apply sort_values_Sorted. }
  assert (Hsrc : Permutation (flat_map sources book)
                   (plate_events p events)).
  { eapply perm_trans; [apply ledger_sources|].
    apply Permutation_sym, sort_values_Permutation. }
  repeat split; try assumption.
  rewrite E1, E2, <- (ledger_count p book Hacc).
  symmetry. apply Permutation_length, Hsrc.
Qed.

End Accounting.

(* ================================================================== *)
(** ** The order in which a group is walked *)

Section WalkOrder.

Context {FL : Float64} {SV : SortValues}.
Variables entry_marker exit_marker : string.

#[local] Abbreviation step := (row_step entry_marker exit_marker).
#[local] Abbreviation build := (build_intervals entry_marker exit_marker).

Lemma group_output_loop (plate : string) (group : list Event) :
  group_output entry_marker exit_marker plate group =
  loop_over entry_marker exit_marker plate (sort_values group).
Proof.
  unfold group_output, loop_over. destruct (isdigit plate).
  - rewrite fold_hazard_step. now rewrite Output_app_no_output_l.
  - rewrite fold_row_step_walk. now rewrite Output_app_no_output_l.
Qed.

(** C2, as the code has it.  The records of a plate are those of the loop
    run over the events of the plate in the order [sort_values] returns
    them: ascending in time and holding exactly the events of the plate.
    When the times of these events are pairwise distinct, this is the order
    a stable sort gives.  The order of events of equal time is the one
    [sort_values] returns, and the result is a function of the input and
    of that sort. *)
Theorem group_is_walked_in_ascending_order (p : string)
  (events : list Event) :
  let walked := sort_values (get_group p events) in
  intervals_of p (rows (fst (build events))) =
    intervals (loop_over entry_marker exit_marker p walked) /\
  issues_of p (snd (build events)) =
    issues (loop_over entry_marker exit_marker p walked) /\
  StronglySorted timestamp_le walked /\
  Permutation (get_group p events) walked /\
  (NoDup (map row_timestamp (get_group p events)) ->
   walked = stable_sort (get_group p events)).
Proof.
  intros walked.
  destruct (build_intervals_of_plate entry_marker exit_marker p events)
    as [E1 E2].
  rewrite group_output_loop in E1, E2.
  repeat split; try assumption.
  - apply sort_values_Sorted.
  - apply sort_values_Permutation.
  - intros Hnd.
    assert (Hstrict : forall l, Permutation (get_group p events) l ->
              StronglySorted timestamp_le l -> StronglySorted timestamp_lt l).
    { intros l HP Hs. apply StronglySorted_le_lt; [|exact Hs].
      eapply Permutation_NoDup; [apply Permutation_map, HP|exact Hnd]. }
    apply strictly_sorted_unique.
    + apply Hstrict; [apply sort_values_Permutation|apply sort_values_Sorted].
    + apply Hstrict; [apply sort_keys_Permutation|apply stable_sort_Sorted].
    + eapply perm_trans;
        [apply Permutation_sym, sort_values_Permutation|].
      apply sort_keys_Permutation.
Qed.

(** C9, where the code departs from it.  On an empty input the intervals
    come back as an empty frame with the four interval columns, but on a
    non-empty input that yields no interval (here a lone ENTRY of a
    non-hazard plate) they come back as a frame with no column at all;
    [summarize_monthly] returns an empty frame with its five columns in
    both cases. *)
Theorem no_interval_frame_has_no_columns (p : string) (t : Timestamp) :
  isdigit p = false ->
  build [] = (mkFrame interval_columns [], []) /\
  build [mkEvent p entry_marker t] =
    (mkFrame [] [], [mkIssue p ENTRY_WITHOUT_EXIT t]) /\
  columns (fst (build [mkEvent p entry_marker t])) <> interval_columns /\
  summarize_monthly (fst (build [])) = mkFrame monthly_columns [] /\
  summarize_monthly (fst (build [mkEvent p entry_marker t])) =
    mkFrame monthly_columns [].
Proof.
  intros Hp.
  assert (E : build [mkEvent p entry_marker t] =
              (mkFrame [] [], [mkIssue p ENTRY_WITHOUT_EXIT t])).
  { rewrite (build_single_plate _ _ p);
      [|discriminate|repeat constructor|exact Hp].
    rewrite sort_values_chronological by repeat constructor.
    cbn [walk]. rewrite step_entry by apply kind_entry_marker.
    reflexivity. }
  rewrite E. repeat split; discriminate.
Qed.

End WalkOrder.

(* ================================================================== *)
(** ** The monthly summary *)

Section MonthlyClaims.

Context {FL : Float64}.

Lemma key_eqb_eq (a b : string * string) : key_eqb a b = true <-> a = b.
Proof.
  unfold key_eqb. destruct (key_dec a b); split; congruence.
Qed.

Lemma key_eqb_split (i : Interval) (plate mon : string) :
  key_eqb (monthly_key i) (plate, mon) =
  String.eqb (interval_plate i) plate &&
  String.eqb (month_key (entry_time i)) mon.
Proof.
  unfold monthly_key.
  destruct (String.eqb_spec (interval_plate i) plate) as [E1|N1];
    [destruct (String.eqb_spec (month_key (entry_time i)) mon) as [E2|N2]|];
    cbn [andb].
  - apply key_eqb_eq. congruence.
  - destruct (key_eqb _ _) eqn:E; [|reflexivity].
    apply key_eqb_eq in E. congruence.
  - destruct (key_eqb _ _) eqn:E; [|reflexivity].
    apply key_eqb_eq in E. congruence.
Qed.

Lemma monthly_keys_NoDup (l : list Interval) : NoDup (monthly_keys l).
Proof.
  unfold monthly_keys.
  eapply Permutation_NoDup; [apply sort_keys_Permutation|].
  apply NoDup_nodup.
Qed.

Lemma monthly_keys_In (k : string * string) (l : list Interval) :
  In k (monthly_keys l) <-> In k (map monthly_key l).
Proof.
  unfold monthly_keys. split; intros H.
  - apply (nodup_In key_dec).
    eapply Permutation_in; [|exact H].
    apply Permutation_sym, sort_keys_Permutation.
  - apply (nodup_In key_dec) in H.
    eapply Permutation_in; [|exact H]. apply sort_keys_Permutation.
Qed.

Lemma count_not_nan (l : list float) :
  Forall (fun x => isnan x = false) l -> count l = List.length l.
Proof.
  intros H. unfold count. f_equal. apply filter_all.
  eapply Forall_impl; [|exact H]. intros x Hx. now rewrite Hx.
Qed.

Lemma summarize_monthly_rows (l : list Interval) :
  rows (summarize_monthly (DataFrame_of_records interval_columns l)) =
  map (monthly_row l) (monthly_keys l).
Proof.
  destruct l as [|i l]; reflexivity.
Qed.

Lemma group_durations_monthly_group (l : list Interval)
  (plate mon : string) :
  group_durations (plate, mon) l =
  map duration_minutes (monthly_group plate mon l).
Proof.
  unfold group_durations, monthly_group. f_equal.
  apply filter_ext. intros i. apply key_eqb_split.
Qed.

Lemma monthly_group_nonempty (l : list Interval) (plate mon : string) :
  In (plate, mon) (monthly_keys l) -> monthly_group plate mon l <> [].
Proof.
  intros Hk. apply monthly_keys_In, in_map_iff in Hk.
  destruct Hk as [i [Ei Hi]]. intros Hnil.
  assert (Hin : In i (monthly_group plate mon l)).
  { apply filter_In. split; [exact Hi|].
    rewrite <- key_eqb_split. apply key_eqb_eq. exact Ei. }
  rewrite Hnil in Hin. destruct Hin.
Qed.

Lemma monthly_row_visits (l : list Interval) (plate mon : string) :
  Forall (fun i => isnan (duration_minutes i) = false) l ->
  visits (monthly_row l (plate, mon)) =
  List.length (monthly_group plate mon l).
Proof.
  intros Hnan. unfold monthly_row. cbn [visits].
  rewrite group_durations_monthly_group.
  rewrite count_not_nan; [apply length_map|].
  apply Forall_map. rewrite Forall_forall in *.
  intros i Hi. apply Hnan.
  unfold monthly_group in Hi. apply filter_In in Hi. apply Hi.
Qed.

Lemma monthly_row_totals (l : list Interval) (plate mon : string) :
  let total :=
    group_sum (map duration_minutes (monthly_group plate mon l)) in
  total_minutes (monthly_row l (plate, mon)) = series_round2 total /\
  total_hours (monthly_row l (plate, mon)) = series_round2 (div60 total).
Proof.
  unfold monthly_row. cbn [total_minutes total_hours].
  rewrite group_durations_monthly_group. split; reflexivity.
Qed.

Lemma all_between_spec (base : Z) (n : nat) (f : Z -> bool) :
  all_between base n f = true ->
  forall z, base <= z < base + Z.of_nat n -> f z = true.
Proof.
  unfold all_between. intros H z Hz.
  rewrite forallb_forall in H.
  specialize (H (Z.to_nat (z - base))).
  replace (base + Z.of_nat (Z.to_nat (z - base))) with z in H by lia.
  apply H. apply in_seq. lia.
Qed.

(** The months of the years 1677 to 2262, which hold every instant a
    [pd.Timestamp] can be, day by day. *)
Lemma months_checked :
  all_between 1677 586 (fun y => all_between 1 12 (month_checked y)) = true.
Proof. vm_compute. reflexivity. Qed.

Lemma civil_from_days_in_month (d y m : Z) :
  1677 <= y <= 2262 -> 1 <= m <= 12 ->
  month_start y m <= d < month_start y m + days_in_month y m ->
  civil_from_days d = (y, m).
Proof.
  intros Hy Hm Hd.
  pose proof (all_between_spec _ _ _ months_checked y) as Hyc.
  cbv beta in Hyc.
  assert (Hy' : all_between 1 12 (month_checked y) = true)
    by (apply Hyc; lia).
  pose proof (all_between_spec _ _ _ Hy' m) as Hmc.
  assert (Hm' : month_checked y m = true) by (apply Hmc; lia).
  pose proof (all_between_spec _ _ _ Hm' d) as Hdc.
  assert (Hc : day_in_month y m d = true) by (apply Hdc; lia).
  unfold day_in_month in Hc. destruct (civil_from_days d) as [y' m'].
  apply andb_prop in Hc. destruct Hc as [E1 E2].
  apply Z.eqb_eq in E1. apply Z.eqb_eq in E2. subst. reflexivity.
Qed.

Lemma month_key_in_month (t : Timestamp) (y m : Z) :
  1677 <= y <= 2262 -> 1 <= m <= 12 -> in_month y m t ->
  month_key t = year_month_text y m.
Proof.
  intros Hy Hm [Hlo Hhi].
  assert (Hn : 0 < ns_per_day) by reflexivity.
  assert (E : year_month t = (y, m)).
  { unfold year_month.
    apply civil_from_days_in_month; [exact Hy|exact Hm|]. split.
    - apply Z.div_le_lower_bound; [exact Hn|].
      rewrite Z.mul_comm. exact Hlo.
    - apply Z.div_lt_upper_bound; [exact Hn|].
      rewrite Z.mul_comm. exact Hhi. }
  unfold month_key. rewrite E. reflexivity.
Qed.

(** C5.  The summary of a sequence of intervals, none with a NaN
    duration, has one row for each plate and month of entry time that
    occurs: no two rows share plate and month, every interval falls in the
    group of one row, and the row of a group carries the number of its
    intervals as visits, the sum of their durations rounded to two
    decimals as total minutes, and that same unrounded sum divided by 60
    and then rounded to two decimals as total hours.  The month of the
    row of an interval is the year and the month of the civil calendar in
    which its entry time lies, written ["YYYY-MM"], for every year a
    [pd.Timestamp] can be of. *)
Theorem monthly_summary_of_groups (l : list Interval) :
  Forall (fun i => isnan (duration_minutes i) = false) l ->
  let summary := summarize_monthly (DataFrame_of_records interval_columns l) in
  columns summary = monthly_columns /\
  NoDup (map (fun r => (monthly_plate r, month r)) (rows summary)) /\
  (forall i, In i l ->
     exists r, In r (rows summary) /\
       monthly_plate r = interval_plate i /\
       month r = month_key (entry_time i) /\
       forall y m, 1677 <= y <= 2262 -> 1 <= m <= 12 ->
         in_month y m (entry_time i) -> month r = year_month_text y m) /\
  (forall r, In r (rows summary) ->
     let group := monthly_group (monthly_plate r) (month r) l in
     let total := group_sum (map duration_minutes group) in
     group <> [] /\
     visits r = List.length group /\
     total_minutes r = series_round2 total /\
     total_hours r = series_round2 (div60 total)).
Proof.
  intros Hnan summary.
  assert (Hrows : rows summary = map (monthly_row l) (monthly_keys l))
    by apply summarize_monthly_rows.
  split; [destruct l; reflexivity|]. rewrite Hrows. split; [|split].
  - rewrite map_map.
    rewrite (map_ext _ (fun k => k)) by (intros [a b]; reflexivity).
    rewrite map_id. apply monthly_keys_NoDup.
  - intros i Hi. exists (monthly_row l (monthly_key i)).
    split; [apply in_map, monthly_keys_In, in_map, Hi|].
    split; [reflexivity|]. split; [reflexivity|].
    intros y m Hy Hm Hin.
    change (month (monthly_row l (monthly_key i)))
      with (month_key (entry_time i)).
    apply month_key_in_month; assumption.
  - intros r Hr. apply in_map_iff in Hr.
    destruct Hr as [[plate mon] [Er Hk]]. subst r.
    change (monthly_plate (monthly_row l (plate, mon))) with plate.
    change (month (monthly_row l (plate, mon))) with mon.
    cbn zeta. split; [|split].
    + apply monthly_group_nonempty, Hk.
    + apply monthly_row_visits, Hnan.
    + apply monthly_row_totals.
Qed.

End MonthlyClaims.

(* ================================================================== *)
(** ** The model on concrete inputs *)

Example sample_build_intervals :
  build_intervals entry_label exit_label sample_events =
  (mkFrame interval_columns
     [mkInterval "AB 123" 20 60000000020 (1 # 1)%Q],
   [mkIssue "4711" HAZARD_PLATE 15;
    mkIssue "4711" HAZARD_PLATE 25;
    mkIssue "AB 123" CONSECUTIVE_ENTRY 10;
    mkIssue "AB 123" EXIT_WITHOUT_ENTRY 60000000030]).
Proof. reflexivity. Qed.

Example sample_summarize_monthly :
  summarize_monthly (DataFrame_of_records interval_columns sample_intervals) =
  mkFrame monthly_columns
    [ mkMonthlyRow "A" "2024-01" 2 (90 # 1)%Q (3 # 2)%Q;
      mkMonthlyRow "A" "2024-02" 1 (90 # 1)%Q (3 # 2)%Q;
      mkMonthlyRow "B" "2024-01" 1 (60 # 1)%Q (1 # 1)%Q ].
Proof. reflexivity. Qed.

(** An alternating sequence of strictly increasing times gives one
    interval per pair and no issue. *)
Example sample_alternating :
  build_intervals entry_label exit_label
    [mkEvent "AB" entry_label (minutes 1); mkEvent "AB" exit_label (minutes 4);
     mkEvent "AB" entry_label (minutes 10);
     mkEvent "AB" exit_label (minutes 11)] =
  (mkFrame interval_columns
     [mkInterval "AB" (minutes 1) (minutes 4) (3 # 1)%Q;
      mkInterval "AB" (minutes 10) (minutes 11) (1 # 1)%Q], []).
Proof. reflexivity. Qed.

(* ================================================================== *)
(** ** The claims at concrete inputs

    With exact rational arithmetic for [Float64] and, unless another sort
    is named, the stable insertion sort for [SortValues]. *)

(** C1 on the first six sample rows: the four events of ["AB 123"], of
    which the ENTRY at 20 and the EXIT at 60000000020 make the interval,
    the ENTRY at 10 is flagged as superseded and the EXIT at 60000000030
    as unmatched. *)
Lemma every_event_is_accounted_once_witness :
  let events := firstn 6 sample_events in
  let entry10 := mkEvent "AB 123" entry_label 10 in
  let entry20 := mkEvent "AB 123" entry_label 20 in
  let exit20 := mkEvent "AB 123" exit_label 60000000020 in
  let exit30 := mkEvent "AB 123" exit_label 60000000030 in
  let stay := mkInterval "AB 123" 20 60000000020 (1 # 1)%Q in
  let superseded := mkIssue "AB 123" CONSECUTIVE_ENTRY 10 in
  let unmatched := mkIssue "AB 123" EXIT_WITHOUT_ENTRY 60000000030 in
  plate_events "AB 123" events = [entry10; entry20; exit20; exit30] /\
  intervals_of "AB 123"
    (rows (fst (build_intervals entry_label exit_label events))) = [stay] /\
  issues_of "AB 123"
    (snd (build_intervals entry_label exit_label events)) =
    [superseded; unmatched] /\
  ledger entry_label exit_label "AB 123" None
    (sort_values (plate_events "AB 123" events)) =
    [ Flagged superseded entry10; Paired stay entry20 exit20;
      Flagged unmatched exit30 ] /\
  Permutation [entry10; entry20; exit20; exit30]
              (plate_events "AB 123" events) /\
  List.length (plate_events "AB 123" events) = (2 * 1 + 2)%nat.
Proof.
  intros events entry10 entry20 exit20 exit30 stay superseded unmatched.
  assert (Hbook :
    ledger entry_label exit_label "AB 123" None
      (sort_values (plate_events "AB 123" events)) =
    [ Flagged superseded entry10; Paired stay entry20 exit20;
      Flagged unmatched exit30 ]) by reflexivity.
  destruct (every_event_is_accounted_once entry_label exit_label
              "AB 123"%string events) as (H1 & H2 & _ & H4 & H5).
  - reflexivity.
  - repeat (constructor;
            [intros _; first [left; reflexivity | right; reflexivity]|]).
    constructor.
  - rewrite Hbook in H1, H2, H4.
    split; [reflexivity|]. split; [exact H1|]. split; [exact H2|].
    split; [exact Hbook|]. split; [exact H4|].
    rewrite H5, H1, H2. reflexivity.
Defined.

(** C2 as stated does not hold of the code.  On [tied_events], eighteen
    rows of one plate and one instant, the quicksort behind [sort_values]
    returns the first EXIT, then the fourteen other EXITs and then the
    three ENTRYs, where the input has the first ENTRY before the fourteen
    EXITs.  Walked in the order of the input, which is the order a stable
    sort leaves them in, the rows give one interval; [build_intervals]
    gives none, and eighteen issues.  A tie of two rows stays in the order
    of the input. *)
Lemma equal_times_are_not_walked_in_input_order :
  ~ (forall (SV : SortValues) (p : string) (events : list Event),
       sort_values (get_group p events) = stable_sort (get_group p events))
  /\
  (@sort_values quicksort_SortValues (get_group "AB" tied_events) =
     aquicksort tied_events /\
   aquicksort tied_events =
     repeat (mkEvent "AB" exit_label 10) 15
     ++ repeat (mkEvent "AB" entry_label 10) 3 /\
   stable_sort (get_group "AB" tied_events) = tied_events)
  /\
  (@build_intervals exact_Float64 quicksort_SortValues entry_label exit_label
     tied_events =
   (mkFrame [] [],
    repeat (mkIssue "AB" EXIT_WITHOUT_ENTRY 10) 15
    ++ repeat (mkIssue "AB" CONSECUTIVE_ENTRY 10) 2
    ++ [mkIssue "AB" ENTRY_WITHOUT_EXIT 10]) /\
   rows (fst (@build_intervals exact_Float64 stable_SortValues
                entry_label exit_label tied_events)) =
   [mkInterval "AB" 10 10 (0 # 1)%Q])
  /\
  @build_intervals exact_Float64 quicksort_SortValues entry_label exit_label
    [mkEvent "AB" entry_label 10; mkEvent "AB" exit_label 10] =
  (mkFrame interval_columns [mkInterval "AB" 10 10 (0 # 1)%Q], []).
Proof.
  split; [|split; [|split]].
  - intros H.
    specialize (H quicksort_SortValues "AB"%string tied_events).
    vm_compute in H. discriminate H.
  - repeat split; reflexivity.
  - split; reflexivity.
  - reflexivity.
Qed.

(** C2, as the code has it, on the sample rows read from the last to the
    first and sorted by the quicksort of pandas: the rows of ["AB 123"],
    whose timestamps are pairwise distinct, are walked in ascending order,
    which is the order a stable sort gives. *)
Lemma group_is_walked_in_ascending_order_witness :
  let events := rev sample_events in
  get_group "AB 123" events =
    [ mkEvent "AB 123" "03 PASS" 60000000040;
      mkEvent "AB 123" exit_label 60000000030;
      mkEvent "AB 123" exit_label 60000000020;
      mkEvent "AB 123" entry_label 20;
      mkEvent "AB 123" entry_label 10 ] /\
  @sort_values quicksort_SortValues (get_group "AB 123" events) =
    [ mkEvent "AB 123" entry_label 10;
      mkEvent "AB 123" entry_label 20;
      mkEvent "AB 123" exit_label 60000000020;
      mkEvent "AB 123" exit_label 60000000030;
      mkEvent "AB 123" "03 PASS" 60000000040 ] /\
  intervals_of "AB 123"
    (rows (fst (@build_intervals exact_Float64 quicksort_SortValues
                  entry_label exit_label events))) =
    [mkInterval "AB 123" 20 60000000020 (1 # 1)%Q] /\
  issues_of "AB 123"
    (snd (@build_intervals exact_Float64 quicksort_SortValues
            entry_label exit_label events)) =
    [ mkIssue "AB 123" CONSECUTIVE_ENTRY 10;
      mkIssue "AB 123" EXIT_WITHOUT_ENTRY 60000000030 ] /\
  @sort_values quicksort_SortValues (get_group "AB 123" events) =
    stable_sort (get_group "AB 123" events).
Proof.
  intros events.
  destruct (@group_is_walked_in_ascending_order exact_Float64
              quicksort_SortValues entry_label exit_label "AB 123"%string
              events) as (H1 & H2 & _ & _ & H5).
  split; [reflexivity|]. split; [reflexivity|].
  split; [rewrite H1; reflexivity|]. split; [rewrite H2; reflexivity|].
  apply H5.
  repeat (constructor; [simpl; intuition discriminate|]). constructor.
Defined.

(** C3 on the sample rows of the hazard plate ["4711"]. *)
Lemma hazard_plate_events_are_flagged_witness :
  isdigit "4711" = true /\
  intervals_of "4711"
    (rows (fst (build_intervals entry_label exit_label sample_events))) = [] /\
  issues_of "4711"
    (snd (build_intervals entry_label exit_label sample_events)) =
  [mkIssue "4711" HAZARD_PLATE 15; mkIssue "4711" HAZARD_PLATE 25].
Proof.
  split; [reflexivity|].
  destruct (hazard_plate_events_are_flagged entry_label exit_label "4711"%string
              sample_events eq_refl) as [H1 [H2 _]].
  split; [exact H1|]. rewrite H2. reflexivity.
Defined.

(** C4 on ENTRY at 10, ENTRY at 20, EXIT at 30. *)
Lemma consecutive_entry_flags_previous_entry_witness :
  kind_of entry_label exit_label entry_label = ENTRY /\
  row_step entry_label exit_label "AB" (no_output, Some 10)
    (mkEvent "AB" entry_label 20) =
  (mkOutput [] [mkIssue "AB" CONSECUTIVE_ENTRY 10], Some 20) /\
  build_intervals entry_label exit_label
    [mkEvent "AB" entry_label 10; mkEvent "AB" entry_label 20;
     mkEvent "AB" exit_label 30] =
  (mkFrame interval_columns
     [mkInterval "AB" 20 30 (round2 (div60 (total_seconds (30 - 20))))],
   [mkIssue "AB" CONSECUTIVE_ENTRY 10]).
Proof.
  split; [reflexivity|]. split.
  - apply (proj1 (consecutive_entry_flags_previous_entry
                    entry_label exit_label)
             "AB"%string no_output 10 (mkEvent "AB"%string entry_label 20)).
    reflexivity.
  - apply (proj2 (consecutive_entry_flags_previous_entry
                    entry_label exit_label) "AB"%string 10 20 30).
    + reflexivity.
    + discriminate.
    + lia.
    + lia.
Defined.

(** C5 on the sample intervals.  The stay of ["B"] begins on 2024-01-31
    at 23:30 and ends on 2024-02-01 at 00:30: it is counted in January. *)
Lemma monthly_summary_of_groups_witness :
  let stay :=
    mkInterval "B" (day 19754 - minutes 30) (day 19754 + minutes 30)
      (60 # 1)%Q in
  let summary :=
    summarize_monthly (DataFrame_of_records interval_columns
                         sample_intervals) in
  rows summary =
    [ mkMonthlyRow "A" "2024-01" 2 (90 # 1)%Q (3 # 2)%Q;
      mkMonthlyRow "A" "2024-02" 1 (90 # 1)%Q (3 # 2)%Q;
      mkMonthlyRow "B" "2024-01" 1 (60 # 1)%Q (1 # 1)%Q ] /\
  in_month 2024 1 (entry_time stay) /\
  in_month 2024 2 (exit_time stay) /\
  exists r, In r (rows summary) /\ monthly_plate r = "B"%string /\
            month r = "2024-01"%string.
Proof.
  intros stay summary.
  assert (Hnan : Forall (fun i => isnan (duration_minutes i) = false)
                   sample_intervals) by (repeat constructor).
  assert (Hentry : in_month 2024 1 (entry_time stay))
    by (split; [discriminate|reflexivity]).
  assert (Hexit : in_month 2024 2 (exit_time stay))
    by (split; [discriminate|reflexivity]).
  destruct (monthly_summary_of_groups sample_intervals Hnan)
    as (_ & _ & H3 & _).
  destruct (H3 stay) as (r & Hr & Hplate & _ & Hmonth).
  { right. right. right. left. reflexivity. }
  split; [reflexivity|]. split; [exact Hentry|]. split; [exact Hexit|].
  exists r. split; [exact Hr|]. split; [exact Hplate|].
  apply (Hmonth 2024 1); [lia|lia|exact Hentry].
Defined.

(** C6 on the interval of the sample rows. *)
Lemma emitted_intervals_are_well_formed_witness :
  let i := mkInterval "AB 123" 20 60000000020 (1 # 1)%Q in
  In i (rows (fst (build_intervals entry_label exit_label sample_events))) /\
  entry_time i <= exit_time i /\
  leb0 (duration_minutes i) = true.
Proof.
  intros i.
  assert (H : In i (rows (fst (build_intervals entry_label exit_label
                                 sample_events))))
    by (left; reflexivity).
  split; [exact H|].
  destruct (emitted_intervals_are_well_formed entry_label exit_label
              sample_events i H) as [H1 [_ H3]].
  split; [exact H1|exact H3].
Defined.

(** C7 on a lone EXIT at 30. *)
Lemma exit_without_open_entry_witness :
  kind_of entry_label exit_label exit_label = EXIT /\
  row_step entry_label exit_label "AB" (no_output, None)
    (mkEvent "AB" exit_label 30) =
  (mkOutput [] [mkIssue "AB" EXIT_WITHOUT_ENTRY 30], None) /\
  snd (build_intervals entry_label exit_label [mkEvent "AB" exit_label 30]) =
  [mkIssue "AB" EXIT_WITHOUT_ENTRY 30].
Proof.
  split; [reflexivity|]. split.
  - apply (proj1 (exit_without_open_entry entry_label exit_label)
             "AB"%string no_output (mkEvent "AB"%string exit_label 30) []).
    reflexivity.
  - apply (proj2 (exit_without_open_entry entry_label exit_label)
             "AB"%string 30).
    + reflexivity.
    + discriminate.
Defined.

(** C8 on an EXIT at 5 met while an entry of 10 is open. *)
Lemma exit_earlier_than_entry_witness :
  kind_of entry_label exit_label exit_label = EXIT /\
  ltb0 (div60 (total_seconds (5 - 10))) = true /\
  row_step entry_label exit_label "AB" (no_output, Some 10)
    (mkEvent "AB" exit_label 5) =
  (mkOutput [] [mkIssue "AB" EXIT_BEFORE_ENTRY 5], None).
Proof.
  split; [reflexivity|]. split; [reflexivity|].
  apply (exit_earlier_than_entry entry_label exit_label "AB"%string no_output 10
           (mkEvent "AB"%string exit_label 5)); reflexivity.
Defined.

(** C9 on a lone ENTRY at 10. *)
Lemma no_interval_frame_has_no_columns_witness :
  isdigit "AB" = false /\
  build_intervals entry_label exit_label [] =
    (mkFrame interval_columns [], []) /\
  build_intervals entry_label exit_label [mkEvent "AB" entry_label 10] =
    (mkFrame [] [], [mkIssue "AB" ENTRY_WITHOUT_EXIT 10]).
Proof.
  split; [reflexivity|].
  destruct (no_interval_frame_has_no_columns entry_label exit_label
              "AB"%string 10
              eq_refl) as [H1 [H2 _]].
  split; [exact H1|exact H2].
Defined.

(** C10 on the last sample row, whose label is neither marker. *)
Lemma unrecognised_event_is_skipped_witness :
  "03 PASS"%string <> entry_label /\ "03 PASS"%string <> exit_label /\
  row_step entry_label exit_label "AB 123"
    (mkOutput [] [mkIssue "AB 123" CONSECUTIVE_ENTRY 10], Some 20)
    (mkEvent "AB 123" "03 PASS" 60000000040) =
  (mkOutput [] [mkIssue "AB 123" CONSECUTIVE_ENTRY 10], Some 20) /\
  issues_of "AB 123"
    (snd (build_intervals entry_label exit_label sample_events)) =
  issues (walk entry_label exit_label "AB 123" None
            (filter (is_marker entry_label exit_label)
               (sort_values (get_group "AB 123" sample_events)))).
Proof.
  assert (H1 : "03 PASS"%string <> entry_label) by discriminate.
  assert (H2 : "03 PASS"%string <> exit_label) by discriminate.
  split; [exact H1|]. split; [exact H2|]. split.
  - apply (proj1 (unrecognised_event_is_skipped entry_label exit_label)
             "AB 123"%string _ (Some 20)
             (mkEvent "AB 123"%string "03 PASS"%string 60000000040));
      assumption.
  - apply (proj2 (unrecognised_event_is_skipped entry_label exit_label)
             "AB 123"%string sample_events).
    reflexivity.
Defined.

(* ================================================================== *)
(** ** The order of strings *)

Lemma ascii_compare_refl (a : ascii) : Ascii.compare a a = Eq.
Proof. apply N.compare_refl. Qed.

Lemma string_compare_refl (s : string) : String.compare s s = Eq.
Proof.
  induction s as [|a s IH]; simpl; [reflexivity|].
  now rewrite ascii_compare_refl.
Qed.

Lemma string_compare_lt_trans (a : string) :
  forall b c, String.compare a b = Lt -> String.compare b c = Lt ->
  String.compare a c = Lt.
Proof.
  induction a as [|x a IH]; intros [|y b] [|z c]; simpl;
    try discriminate; try reflexivity.
  unfold Ascii.compare.
  destruct (N.compare_spec (N_of_ascii x) (N_of_ascii y)) as [Exy|Lxy|Gxy];
    destruct (N.compare_spec (N_of_ascii y) (N_of_ascii z)) as [Eyz|Lyz|Gyz];
    try discriminate; intros Hab Hbc;
    destruct (N.compare_spec (N_of_ascii x) (N_of_ascii z)) as [Exz|Lxz|Gxz];
    try reflexivity; try lia.
  now apply (IH b c).
Qed.

Lemma string_leb_trans (a b c : string) :
  String.leb a b = true -> String.leb b c = true -> String.leb a c = true.
Proof.
  unfold String.leb.
  destruct (String.compare a b) eqn:Eab; try discriminate;
    destruct (String.compare b c) eqn:Ebc; try discriminate; intros _ _.
  - apply String.compare_eq_iff in Eab, Ebc. subst.
    now rewrite string_compare_refl.
  - apply String.compare_eq_iff in Eab. subst. now rewrite Ebc.
  - apply String.compare_eq_iff in Ebc. subst. now rewrite Eab.
  - now rewrite (string_compare_lt_trans a b c Eab Ebc).
Qed.

Lemma string_leb_refl (a : string) : String.leb a a = true.
Proof. unfold String.leb. now rewrite string_compare_refl. Qed.

Lemma string_leb_false (a b : string) :
  String.leb a b = false -> String.leb b a = true.
Proof.
  intros H. destruct (String.leb_total a b) as [E|E]; congruence.
Qed.

Lemma group_keys_sorted (events : list Event) :
  StronglySorted plate_le (group_keys events).
Proof.
  apply sort_keys_StronglySorted.
  - exact string_leb_trans.
  - intros a b H. exact H.
  - exact string_leb_false.
Qed.

(* ================================================================== *)
(** ** Further properties of [build_intervals] *)

Section MoreOnBuildIntervals.

Context {FL : Float64} {SV : SortValues}.
Variables entry_marker exit_marker : string.

#[local] Abbreviation kind := (kind_of entry_marker exit_marker).
#[local] Abbreviation step := (row_step entry_marker exit_marker).
#[local] Abbreviation build := (build_intervals entry_marker exit_marker).

(** The output of groups whose keys ascend is in ascending order of
    plate, and names no plate but the keys. *)
Lemma groups_output_sorted (group : string -> list Event)
  (keys : list string) :
  StronglySorted plate_le keys ->
  let out := groups_output entry_marker exit_marker
               (map (fun k => (k, group k)) keys) in
  (StronglySorted (fun a b => plate_le (interval_plate a) (interval_plate b))
     (intervals out) /\
   StronglySorted (fun a b => plate_le (issue_plate a) (issue_plate b))
     (issues out)) /\
  (Forall (fun i => In (interval_plate i) keys) (intervals out) /\
   Forall (fun x => In (issue_plate x) keys) (issues out)).
Proof.
  induction 1 as [|k keys Hs IH Hall];
    cbn [map groups_output fold_right fst snd].
  - repeat split; constructor.
  - cbn zeta in IH. destruct IH as [[IH1 IH2] [IH3 IH4]].
    fold (groups_output entry_marker exit_marker
            (map (fun k => (k, group k)) keys)).
    destruct (group_output_of_plate entry_marker exit_marker k (group k))
      as [Hk1 Hk2].
    cbn [Output_app intervals issues].
    rewrite Forall_forall in Hall, Hk1, Hk2, IH3, IH4.
    assert (Hsort : forall (A : Type) (pl : A -> string) (own rest : list A),
              (forall a, In a own -> pl a = k) ->
              (forall a, In a rest -> In (pl a) keys) ->
              StronglySorted (fun a b => plate_le (pl a) (pl b)) rest ->
              StronglySorted (fun a b => plate_le (pl a) (pl b))
                (own ++ rest)).
    { intros A pl own rest Hown Hrest Hsr.
      induction own as [|a own IHo]; [exact Hsr|].
      cbn [app]. constructor.
      - apply IHo. intros b Hb. apply Hown. now right.
      - apply Forall_forall. intros b Hb. unfold plate_le.
        rewrite (Hown a) by now left.
        apply in_app_or in Hb. destruct Hb as [Hb|Hb].
        + rewrite (Hown b) by now right. apply string_leb_refl.
        + apply Hall, Hrest, Hb. }
    repeat split.
    + now apply Hsort.
    + now apply Hsort.
    + apply Forall_forall. intros i Hi. apply in_app_or in Hi.
      destruct Hi as [Hi|Hi]; [left; symmetry; now apply Hk1|].
      right. now apply IH3.
    + apply Forall_forall. intros x Hx. apply in_app_or in Hx.
      destruct Hx as [Hx|Hx]; [left; symmetry; now apply Hk2|].
      right. now apply IH4.
Qed.

(** X1.  The intervals and the issues come out plate after plate, the
    plates in ascending order, and every plate they name is the plate of
    an event of the input. *)
Theorem output_is_ordered_by_plate (events : list Event) :
  StronglySorted (fun a b => plate_le (interval_plate a) (interval_plate b))
    (rows (fst (build events))) /\
  StronglySorted (fun a b => plate_le (issue_plate a) (issue_plate b))
    (snd (build events)) /\
  Forall (fun i => In (interval_plate i) (map row_plate events))
    (rows (fst (build events))) /\
  Forall (fun x => In (issue_plate x) (map row_plate events))
    (snd (build events)).
Proof.
  destruct (build_intervals_groups entry_marker exit_marker events)
    as [-> ->].
  unfold groupby.
  destruct (groups_output_sorted (fun k => get_group k events)
              (group_keys events) (group_keys_sorted events))
    as [[H1 H2] [H3 H4]].
  repeat split; try assumption.
  - eapply Forall_impl; [|exact H3]. intros i. apply group_keys_In.
  - eapply Forall_impl; [|exact H4]. intros x. apply group_keys_In.
Qed.

Lemma get_group_idempotent (p : string) (events : list Event) :
  get_group p (get_group p events) = get_group p events.
Proof.
  unfold get_group. apply filter_all, Forall_forall.
  intros r Hr. now apply filter_In in Hr.
Qed.

Lemma get_group_plate (p : string) (events : list Event) :
  Forall (fun r => row_plate r = p) (get_group p events).
Proof.
  apply Forall_forall. intros r Hr. apply filter_In in Hr.
  now apply String.eqb_eq.
Qed.

(** The result for a non-empty input whose rows all carry the plate [p]. *)
Lemma build_one_group (p : string) (events : list Event) :
  events <> [] -> Forall (fun r => row_plate r = p) events ->
  rows (fst (build events)) =
    intervals (group_output entry_marker exit_marker p events) /\
  snd (build events) =
    issues (group_output entry_marker exit_marker p events).
Proof.
  intros Hne Hall.
  destruct (build_intervals_groups entry_marker exit_marker events)
    as [-> ->].
  rewrite (groupby_single p) by assumption.
  cbn [groups_output fold_right fst snd].
  now rewrite Output_app_no_output_r.
Qed.

(** X2.  Plates do not affect one another: the intervals and issues of a
    plate in the result for the whole input are the result for the events
    of that plate alone. *)
Theorem plates_are_processed_independently (p : string)
  (events : list Event) :
  intervals_of p (rows (fst (build events))) =
    rows (fst (build (get_group p events))) /\
  issues_of p (snd (build events)) = snd (build (get_group p events)).
Proof.
  destruct (build_intervals_of_plate entry_marker exit_marker p events)
    as [-> ->].
  destruct (get_group p events) as [|r g] eqn:Eg.
  - rewrite group_output_nil. split; reflexivity.
  - rewrite <- Eg.
    destruct (build_one_group p (get_group p events)) as [-> ->].
    + rewrite Eg. discriminate.
    + apply get_group_plate.
    + split; reflexivity.
Qed.

End MoreOnBuildIntervals.

(* ================================================================== *)
(** ** Stays of a plate, and clean inputs *)

Section Stays.

Context {FL : Float64} {SV : SortValues}.
Variables entry_marker exit_marker : string.

#[local] Abbreviation kind := (kind_of entry_marker exit_marker).
#[local] Abbreviation step := (row_step entry_marker exit_marker).
#[local] Abbreviation build := (build_intervals entry_marker exit_marker).
#[local] Abbreviation visits := (visits_events entry_marker exit_marker).

Lemma walk_stays_in_order (plate : string) (rows : list Event) :
  forall (o : option Timestamp) (lb : Z),
    StronglySorted Z.le (instants o rows) ->
    Forall (fun t => lb <= t) (instants o rows) ->
    Forall (fun i => lb <= entry_time i)
      (intervals (walk entry_marker exit_marker plate o rows)) /\
    StronglySorted (fun i j => exit_time i <= entry_time j)
      (intervals (walk entry_marker exit_marker plate o rows)).
Proof.
  induction rows as [|row rest IH]; intros o lb Hs Hlb; cbn [walk].
  - destruct o; split; constructor.
  - assert (Hrest : StronglySorted Z.le (map row_timestamp rest) /\
                    Forall (fun t => row_timestamp row <= t)
                      (map row_timestamp rest) /\
                    lb <= row_timestamp row /\
                    Forall (fun t => lb <= t) (map row_timestamp rest)).
    { destruct o as [t|]; cbn [instants map] in Hs, Hlb.
      - inversion Hs as [|? ? Hs1 _]; subst.
        inversion Hs1 as [|? ? Hs2 Hle]; subst.
        inversion Hlb as [|? ? _ Hlb1]; subst.
        inversion Hlb1; subst. auto.
      - inversion Hs as [|? ? Hs2 Hle]; subst.
        inversion Hlb; subst. auto. }
    destruct Hrest as [Hs2 [Hle [Hlbrow Hlbrest]]].
    destruct (kind (row_event row)) eqn:Hk.
    + rewrite step_entry by exact Hk. cbn [fst snd].
      assert (Hi : intervals
                (match o with
                 | Some t => add_issue no_output
                               (mkIssue plate CONSECUTIVE_ENTRY t)
                 | None => no_output
                 end) = []) by now destruct o.
      cbn [Output_app intervals]. rewrite Hi. cbn [app].
      apply IH; cbn [instants]; constructor; assumption.
    + rewrite step_exit by exact Hk.
      destruct o as [t|].
      * cbn [instants map] in Hs, Hlb.
        inversion Hs as [|? ? _ Ht]; subst.
        inversion Ht as [|? ? Htrow _]; subst.
        inversion Hlb as [|? ? Hlbt _]; subst.
        rewrite duration_sign.
        destruct (Z.ltb_spec (row_timestamp row - t) 0) as [Hneg|_]; [lia|].
        cbn [fst snd Output_app intervals add_interval no_output app].
        destruct (IH None (row_timestamp row)) as [IH1 IH2];
          [exact Hs2|exact Hle|].
        split.
        -- constructor; [exact Hlbt|].
           eapply Forall_impl; [|exact IH1]. cbn beta. intros i Hi. lia.
        -- constructor; [exact IH2|exact IH1].
      * cbn [fst snd Output_app intervals add_issue no_output app].
        apply IH; assumption.
    + rewrite step_other by exact Hk. cbn [fst snd].
      rewrite Output_app_no_output_l.
      apply IH.
      * destruct o as [t|]; cbn [instants map] in *; [|exact Hs2].
        inversion Hs as [|? ? _ Ht]; subst. inversion Ht; subst.
        constructor; assumption.
      * destruct o as [t|]; cbn [instants map] in *; [|exact Hlbrest].
        inversion Hlb; subst. constructor; assumption.
Qed.

Lemma sorted_timestamps (l : list Event) :
  StronglySorted timestamp_le l -> StronglySorted Z.le (map row_timestamp l).
Proof.
  induction 1 as [|a l _ IH Hall]; cbn [map]; constructor; [exact IH|].
  apply Forall_map. exact Hall.
Qed.

(** X3.  The stays of a plate do not overlap and come out in the order of
    time: each interval of the plate begins at or after the end of the
    interval of that plate listed before it. *)
Theorem stays_of_a_plate_do_not_overlap (p : string)
  (events : list Event) :
  StronglySorted (fun i j => exit_time i <= entry_time j)
    (intervals_of p (rows (fst (build events)))).
Proof.
  destruct (build_intervals_of_plate entry_marker exit_marker p events)
    as [-> _].
  unfold group_output. destruct (isdigit p); [constructor|].
  set (walked := sort_values (get_group p events)).
  assert (Hs : StronglySorted Z.le (map row_timestamp walked))
    by apply sorted_timestamps, sort_values_Sorted.
  destruct walked as [|r l] eqn:Ew; [constructor|].
  apply (walk_stays_in_order p (r :: l) None (row_timestamp r)).
  - exact Hs.
  - cbn [instants map] in *. inversion Hs as [|? ? _ Hall]; subst.
    constructor; [lia|exact Hall].
Qed.

Lemma visits_events_after (p : string) (t : Z) (pairs : list (Z * Z)) :
  Forall (fun u => t < u) (visits_instants pairs) ->
  Forall (fun r => t < row_timestamp r) (visits p pairs).
Proof.
  induction pairs as [|[a b] pairs IH]; intros H; [constructor|].
  cbn [visits_instants visits_events flat_map app fst snd] in *.
  inversion H as [|? ? Ha H1]; subst. inversion H1 as [|? ? Hb H2]; subst.
  constructor; [exact Ha|]. constructor; [exact Hb|]. now apply IH.
Qed.

Lemma visits_events_sorted (p : string) (pairs : list (Z * Z)) :
  StronglySorted Z.lt (visits_instants pairs) ->
  StronglySorted timestamp_lt (visits p pairs).
Proof.
  induction pairs as [|[a b] pairs IH]; intros Hs; [constructor|].
  cbn [visits_instants visits_events flat_map app fst snd] in *.
  inversion Hs as [|? ? Hs1 Ha]; subst.
  inversion Hs1 as [|? ? Hs2 Hb]; subst.
  inversion Ha as [|? ? Hab Ha']; subst.
  constructor; [constructor|].
  - now apply IH.
  - now apply visits_events_after.
  - constructor; [exact Hab|]. now apply visits_events_after.
Qed.

Lemma walk_visits (p : string) (pairs : list (Z * Z)) :
  entry_marker <> exit_marker ->
  StronglySorted Z.lt (visits_instants pairs) ->
  walk entry_marker exit_marker p None (visits p pairs) =
  mkOutput
    (map (fun ab => mkInterval p (fst ab) (snd ab)
                      (round2 (div60 (total_seconds (snd ab - fst ab)))))
         pairs) [].
Proof.
  intros Hm. induction pairs as [|[a b] pairs IH]; intros Hs;
    [reflexivity|].
  cbn [visits_events flat_map app walk map fst snd].
  rewrite step_entry by apply kind_entry_marker.
  cbn [fst snd row_timestamp].
  rewrite step_exit by (apply kind_exit_marker, Hm).
  cbn [row_timestamp]. rewrite duration_sign.
  cbn [visits_instants flat_map app fst snd] in Hs.
  inversion Hs as [|? ? Hs1 Ha]; subst. inversion Ha as [|? ? Hab _]; subst.
  inversion Hs1 as [|? ? Hs2 _]; subst.
  destruct (Z.ltb_spec (b - a) 0) as [Hneg|_]; [lia|].
  cbn [fst snd]. fold (visits p pairs).
  rewrite (IH Hs2). reflexivity.
Qed.

(** X4.  A clean input gives a clean result: for a non-hazard plate whose
    events are ENTRY, EXIT, ENTRY, EXIT, ... at strictly increasing times,
    the intervals are exactly the pairs, in order, each with its rounded
    duration, and there is no issue. *)
Theorem alternating_events_pair_up (p : string) (pairs : list (Z * Z)) :
  isdigit p = false -> entry_marker <> exit_marker ->
  StronglySorted Z.lt (visits_instants pairs) ->
  rows (fst (build (visits p pairs))) =
    map (fun ab => mkInterval p (fst ab) (snd ab)
                     (round2 (div60 (total_seconds (snd ab - fst ab)))))
        pairs /\
  snd (build (visits p pairs)) = [].
Proof.
  intros Hp Hm Hs.
  destruct pairs as [|ab pairs]; [split; reflexivity|].
  destruct (build_one_group entry_marker exit_marker p
              (visits p (ab :: pairs))) as [-> ->].
  - destruct ab; discriminate.
  - clear. generalize (ab :: pairs). intros l.
    induction l as [|[a b] l IH]; cbn; repeat constructor. exact IH.
  - unfold group_output. rewrite Hp.
    rewrite sort_values_chronological by now apply visits_events_sorted.
    rewrite walk_visits by assumption. split; reflexivity.
Qed.

End Stays.

(* ================================================================== *)
(** ** Counting over groups *)

Section Partition.

Context {A K : Type}.
Variable key : A -> K.
Variable eqb : K -> K -> bool.
Hypothesis eqb_eq : forall a b, eqb a b = true <-> a = b.

Lemma list_sum_map_add {B : Type} (f g : B -> nat) (l : list B) :
  list_sum (map (fun b => (f b + g b)%nat) l) =
  (list_sum (map f l) + list_sum (map g l))%nat.
Proof.
  induction l as [|b l IH]; cbn [map list_sum fold_right]; [reflexivity|].
  fold (list_sum (map (fun b => (f b + g b)%nat) l)).
  fold (list_sum (map f l)). fold (list_sum (map g l)). lia.
Qed.

Lemma list_sum_indicator (x : K) (keys : list K) :
  NoDup keys ->
  list_sum (map (fun k => if eqb x k then 1%nat else 0%nat) keys) =
  if existsb (eqb x) keys then 1%nat else 0%nat.
Proof.
  induction 1 as [|k keys Hk _ IH]; cbn [map list_sum fold_right existsb];
    [reflexivity|].
  fold (list_sum (map (fun k => if eqb x k then 1%nat else 0%nat) keys)).
  rewrite IH. destruct (eqb x k) eqn:E; cbn [orb]; [|reflexivity].
  apply eqb_eq in E. subst k.
  destruct (existsb (eqb x) keys) eqn:Ex; [|reflexivity].
  apply existsb_exists in Ex. destruct Ex as [y [Hy Exy]].
  apply eqb_eq in Exy. subst y. contradiction.
Qed.

(** Groups with distinct keys that cover the list share out its
    elements. *)
Lemma partition_length (keys : list K) (l : list A) :
  NoDup keys -> (forall a, In a l -> In (key a) keys) ->
  list_sum (map (fun k => List.length (filter (fun a => eqb (key a) k) l))
              keys) = List.length l.
Proof.
  intros Hnd. induction l as [|a l IH]; intros Hcover.
  - clear Hnd Hcover. induction keys as [|k keys IHk]; [reflexivity|].
    simpl. exact IHk.
  - rewrite (map_ext _
      (fun k => ((if eqb (key a) k then 1 else 0) +
                 List.length (filter (fun a => eqb (key a) k) l))%nat)).
    2:{ intros k. cbn [filter]. now destruct (eqb (key a) k). }
    rewrite list_sum_map_add, list_sum_indicator by exact Hnd.
    rewrite IH by (intros b Hb; apply Hcover; now right).
    assert (Hex : existsb (eqb (key a)) keys = true).
    { apply existsb_exists. exists (key a). split.
      - apply Hcover. now left.
      - now apply eqb_eq. }
    rewrite Hex. reflexivity.
Qed.

End Partition.

Lemma Permutation_filter {A : Type} (f : A -> bool) (l l' : list A) :
  Permutation l l' -> Permutation (filter f l) (filter f l').
Proof.
  induction 1 as [|a l l' _ IH|a b l|l1 l2 l3 _ IH1 _ IH2]; cbn [filter].
  - constructor.
  - destruct (f a); [now constructor|exact IH].
  - destruct (f a), (f b); try apply Permutation_refl. apply perm_swap.
  - eapply perm_trans; eassumption.
Qed.

Lemma filter_comm {A : Type} (f g : A -> bool) (l : list A) :
  filter f (filter g l) = filter g (filter f l).
Proof.
  induction l as [|a l IH]; [reflexivity|]. cbn [filter].
  destruct (g a) eqn:Eg, (f a) eqn:Ef; cbn [filter];
    rewrite ?Eg, ?Ef, IH; reflexivity.
Qed.

Lemma filter_split_length {A : Type} (f : A -> bool) (l : list A) :
  List.length l =
  (List.length (filter f l) + List.length (filter (fun a => negb (f a)) l))%nat.
Proof.
  induction l as [|a l IH]; [reflexivity|]. cbn [filter].
  destruct (f a); cbn [negb List.length]; lia.
Qed.

Lemma StronglySorted_filter {A : Type} (R : A -> A -> Prop)
  (f : A -> bool) (l : list A) :
  StronglySorted R l -> StronglySorted R (filter f l).
Proof.
  induction 1 as [|a l _ IH Hall]; cbn [filter]; [constructor|].
  destruct (f a); [|exact IH]. constructor; [exact IH|].
  rewrite Forall_forall in *. intros b Hb. apply Hall.
  now apply filter_In in Hb.
Qed.

(* ================================================================== *)
(** ** Every event of the input, accounted for *)

Section GlobalAccounting.

Context {FL : Float64} {SV : SortValues}.
Variables entry_marker exit_marker : string.

#[local] Abbreviation kind := (kind_of entry_marker exit_marker).
#[local] Abbreviation build := (build_intervals entry_marker exit_marker).
#[local] Abbreviation passed_over :=
  (unrecognised entry_marker exit_marker).

Lemma is_marker_kind (r : Event) :
  is_marker entry_marker exit_marker r = true ->
  kind (row_event r) <> OTHER.
Proof.
  unfold is_marker, kind_of.
  destruct (String.eqb (row_event r) entry_marker); [discriminate|].
  destruct (String.eqb (row_event r) exit_marker); discriminate.
Qed.

(** The marker rows of a group in ascending order: two to an interval,
    one to an issue. *)
Lemma walk_marker_count (p : string) (l : list Event) :
  StronglySorted timestamp_le l ->
  let out := walk entry_marker exit_marker p None l in
  List.length (filter (is_marker entry_marker exit_marker) l) =
  (2 * List.length (intervals out) + List.length (issues out))%nat.
Proof.
  intros Hs out. unfold out. rewrite walk_skips_other.
  set (marked := filter (is_marker entry_marker exit_marker) l).
  pose proof (ledger_walk entry_marker exit_marker p marked None) as Hw.
  cbn [option_map] in Hw. cbn zeta in Hw. rewrite Hw.
  cbn [intervals issues].
  assert (Hacc : Forall (accounts_for entry_marker exit_marker p)
                   (ledger entry_marker exit_marker p None marked)).
  { apply ledger_accounts.
    - constructor.
    - apply Forall_forall. intros r Hr. apply filter_In in Hr.
      now apply is_marker_kind.
    - apply StronglySorted_filter, Hs. }
  rewrite <- (ledger_count entry_marker exit_marker p _ Hacc).
  symmetry. apply Permutation_length.
  apply (ledger_sources entry_marker exit_marker p marked None).
Qed.

Lemma group_accounting (p : string) (g : list Event) :
  Forall (fun r => row_plate r = p) g ->
  let out := group_output entry_marker exit_marker p g in
  List.length g =
  (2 * List.length (intervals out) + List.length (issues out) +
   List.length (filter passed_over g))%nat.
Proof.
  intros Hp out. unfold out, group_output.
  pose proof (sort_values_Permutation g) as HP.
  destruct (isdigit p) eqn:Ed; cbn [intervals issues List.length].
  - rewrite length_map, <- (Permutation_length HP).
    rewrite (filter_none passed_over).
    + cbn [List.length]. lia.
    + eapply Forall_impl; [|exact Hp]. intros r Hr.
      unfold unrecognised. now rewrite Hr, Ed.
  - pose proof (walk_marker_count p (sort_values g)
                  (sort_values_Sorted g)) as Hw.
    cbn zeta in Hw. rewrite <- Hw.
    rewrite <- (Permutation_length
                  (Permutation_filter
                     (is_marker entry_marker exit_marker) _ _ HP)).
    rewrite (filter_split_length (is_marker entry_marker exit_marker) g)
      at 1.
    f_equal. f_equal. apply filter_ext_in. intros r Hr.
    rewrite Forall_forall in Hp. unfold unrecognised.
    now rewrite (Hp r Hr), Ed.
Qed.

Lemma groups_accounting (events : list Event) (keys : list string) :
  let out := groups_output entry_marker exit_marker
               (map (fun k => (k, get_group k events)) keys) in
  list_sum (map (fun k => List.length (get_group k events)) keys) =
  (2 * List.length (intervals out) + List.length (issues out) +
   list_sum (map (fun k => List.length
                             (get_group k (filter passed_over events)))
               keys))%nat.
Proof.
  induction keys as [|k keys IH];
    cbn [map list_sum fold_right groups_output fst snd]; [reflexivity|].
  cbn zeta in IH.
  fold (groups_output entry_marker exit_marker
          (map (fun k => (k, get_group k events)) keys)).
  fold (list_sum (map (fun k => List.length (get_group k events)) keys)).
  fold (list_sum (map (fun k => List.length
                                  (get_group k (filter passed_over events)))
                    keys)).
  cbn [Output_app intervals issues]. rewrite !length_app, IH.
  rewrite (group_accounting k (get_group k events))
    by apply get_group_plate.
  unfold get_group at 3. rewrite (filter_comm passed_over).
  fold (get_group k (filter passed_over events)). lia.
Qed.

(** X6.  No event is lost without trace and none is counted twice: the
    events of the input number twice the intervals, plus the issues, plus
    the rows of non-hazard plates whose event is neither marker, which are
    the only rows that leave no record. *)
Theorem all_events_are_accounted (events : list Event) :
  List.length events =
  (2 * List.length (rows (fst (build events))) +
   List.length (snd (build events)) +
   List.length (filter passed_over events))%nat.
Proof.
  destruct (build_intervals_groups entry_marker exit_marker events)
    as [-> ->].
  unfold groupby.
  rewrite <- (partition_length row_plate String.eqb String.eqb_eq
                (group_keys events) events (group_keys_NoDup events))
    at 1.
  2:{ intros r Hr. apply group_keys_In. now apply in_map. }
  rewrite <- (partition_length row_plate String.eqb String.eqb_eq
                (group_keys events) (filter passed_over events)
                (group_keys_NoDup events)).
  2:{ intros r Hr. apply filter_In in Hr. apply group_keys_In.
      now apply in_map. }
  apply groups_accounting.
Qed.

End GlobalAccounting.

(* ================================================================== *)
(** ** Further properties of [summarize_monthly] *)

Lemma key_leb_trans (a b c : string * string) :
  key_le a b -> key_le b c -> key_le a c.
Proof.
  unfold key_le, key_leb. destruct a as [a1 a2], b as [b1 b2], c as [c1 c2].
  cbn [fst snd].
  destruct (String.eqb_spec a1 b1) as [Eab|Nab];
    destruct (String.eqb_spec b1 c1) as [Ebc|Nbc];
    destruct (String.eqb_spec a1 c1) as [Eac|Nac];
    subst; try congruence; intros H1 H2;
    first [ exact H1 | exact H2
          | exact (string_leb_trans _ _ _ H1 H2)
          | exfalso; apply Nab; now apply String.leb_antisym ].
Qed.

Lemma key_leb_false (a b : string * string) :
  key_leb a b = false -> key_le b a.
Proof.
  unfold key_le, key_leb. rewrite (String.eqb_sym (fst b) (fst a)).
  destruct (String.eqb (fst a) (fst b)); apply string_leb_false.
Qed.

Section MoreOnSummarizeMonthly.

Context {FL : Float64}.

Lemma summarize_monthly_rows_of (df : DataFrame Interval) :
  (rows df <> [] -> columns df <> []) ->
  rows (summarize_monthly df) =
  map (monthly_row (rows df)) (monthly_keys (rows df)).
Proof.
  intros H. unfold summarize_monthly, empty.
  destruct (rows df) as [|i l] eqn:Er; [now destruct (columns df)|].
  destruct (columns df) as [|c cs]; [|reflexivity].
  exfalso. now apply H.
Qed.

Lemma monthly_visits_sum (l : list Interval) :
  Forall (fun i => isnan (duration_minutes i) = false) l ->
  list_sum (map visits (map (monthly_row l) (monthly_keys l))) =
  List.length l.
Proof.
  intros Hnan. rewrite map_map.
  rewrite (map_ext _
    (fun k => List.length (filter (fun i => key_eqb (monthly_key i) k) l))).
  - apply (partition_length monthly_key key_eqb key_eqb_eq).
    + apply monthly_keys_NoDup.
    + intros i Hi. apply monthly_keys_In. now apply in_map.
  - intros [plate mon]. rewrite (monthly_row_visits l plate mon Hnan).
    unfold monthly_group. f_equal. apply filter_ext.
    intros i. symmetry. apply key_eqb_split.
Qed.

Lemma monthly_keys_sorted (l : list Interval) :
  StronglySorted key_le (monthly_keys l).
Proof.
  apply sort_keys_StronglySorted.
  - exact key_leb_trans.
  - intros a b H. exact H.
  - exact key_leb_false.
Qed.

(** X7.  The summary of a sequence of intervals, none with a NaN duration,
    counts every interval once: the visits of its rows add up to the
    number of intervals. *)
Theorem monthly_visits_count_every_interval (l : list Interval) :
  Forall (fun i => isnan (duration_minutes i) = false) l ->
  list_sum
    (map visits
       (rows (summarize_monthly
                (DataFrame_of_records interval_columns l)))) =
  List.length l.
Proof.
  intros Hnan. rewrite summarize_monthly_rows.
  now apply monthly_visits_sum.
Qed.

(** X8.  The rows of the summary are in ascending order of plate and,
    for one plate, in ascending order of month. *)
Theorem monthly_rows_are_sorted (df : DataFrame Interval) :
  StronglySorted
    (fun a b => key_le (monthly_plate a, month a) (monthly_plate b, month b))
    (rows (summarize_monthly df)).
Proof.
  unfold summarize_monthly. destruct (empty df); cbn [rows]; [constructor|].
  pose proof (monthly_keys_sorted (rows df)) as Hs.
  induction Hs as [|k keys _ IH Hall]; cbn [map]; constructor; [exact IH|].
  apply Forall_map. eapply Forall_impl; [|exact Hall].
  intros k'. destruct k, k'. exact (fun H => H).
Qed.

End MoreOnSummarizeMonthly.

(* ================================================================== *)
(** ** From events to the monthly summary *)

Section Pipeline.

Context {FL : Float64} {SV : SortValues}.
Variables entry_marker exit_marker : string.

#[local] Abbreviation build := (build_intervals entry_marker exit_marker).

Lemma groups_output_no_hazard (groups : list (string * list Event)) :
  Forall (fun i => isdigit (interval_plate i) = false)
    (intervals (groups_output entry_marker exit_marker groups)).
Proof.
  induction groups as [|[p g] rest IH]; cbn [groups_output fold_right].
  - constructor.
  - cbn [Output_app intervals fst snd]. apply Forall_app. split; [|exact IH].
    unfold group_output. destruct (isdigit p) eqn:Ed; [constructor|].
    destruct (walk_of_plate entry_marker exit_marker p
                (sort_values g) None) as [H _].
    eapply Forall_impl; [|exact H]. intros i Hi. now rewrite Hi.
Qed.

Lemma build_frame_shape (events : list Event) :
  rows (fst (build events)) <> [] -> columns (fst (build events)) <> [].
Proof.
  destruct events as [|e events]; [intros H; now contradiction H|].
  unfold build_intervals. cbn [fst].
  destruct (intervals _); cbn [DataFrame_of_records rows columns];
    [intros H; now contradiction H|discriminate].
Qed.

(** X9.  Run on the result of [build_intervals], the monthly summary
    counts every interval once, has a row exactly when there is an
    interval, and names only non-hazard plates of the input: a hazard
    plate never reaches the summary. *)
Theorem summary_of_built_intervals (events : list Event) :
  let summary := summarize_monthly (fst (build events)) in
  list_sum (map visits (rows summary)) =
    List.length (rows (fst (build events))) /\
  (rows summary = [] <-> rows (fst (build events)) = []) /\
  Forall (fun r => isdigit (monthly_plate r) = false /\
                   In (monthly_plate r) (map row_plate events))
    (rows summary).
Proof.
  intros summary. unfold summary.
  rewrite (summarize_monthly_rows_of _ (build_frame_shape events)).
  set (l := rows (fst (build events))).
  assert (Hl : Forall well_formed_interval l /\
               Forall (fun i => isdigit (interval_plate i) = false) l /\
               Forall (fun i => In (interval_plate i) (map row_plate events))
                 l).
  { unfold l.
    destruct (build_intervals_groups entry_marker exit_marker events)
      as [-> _].
    split; [apply groups_output_well_formed|].
    split; [apply groups_output_no_hazard|].
    unfold groupby.
    destruct (groups_output_sorted entry_marker exit_marker
                (fun k => get_group k events)
                (group_keys events) (group_keys_sorted events))
      as [_ [H3 _]].
    eapply Forall_impl; [|exact H3]. intros i. apply group_keys_In. }
  destruct Hl as [Hwf [Hnh Hin]].
  split; [|split].
  - apply monthly_visits_sum.
    eapply Forall_impl; [|exact Hwf].
    intros i [_ [_ H]]. now apply nonneg_not_nan.
  - split; intros H.
    + destruct l as [|i l']; [reflexivity|].
      assert (Hk : In (monthly_key i) (monthly_keys (i :: l')))
        by (apply monthly_keys_In; now left).
      destruct (monthly_keys (i :: l')); [destruct Hk|discriminate].
    + rewrite H. reflexivity.
  - apply Forall_forall. intros r Hr. apply in_map_iff in Hr.
    destruct Hr as [[plate mon] [Er Hk]]. subst r.
    change (monthly_plate (monthly_row l (plate, mon))) with plate.
    apply monthly_keys_In, in_map_iff in Hk.
    destruct Hk as [i [Ei Hi]].
    assert (Ep : interval_plate i = plate)
      by (unfold monthly_key in Ei; congruence).
    rewrite Forall_forall in Hnh, Hin. rewrite <- Ep.
    split; [now apply Hnh|now apply Hin].
Qed.

End Pipeline.

(* ================================================================== *)
(** ** Stripped and upper-case text *)

Lemma lstrip_idempotent (s : string) : lstrip (lstrip s) = lstrip s.
Proof.
  induction s as [|c s IH]; [reflexivity|]. cbn [lstrip].
  destruct (is_space c) eqn:E; [exact IH|]. cbn [lstrip]. now rewrite E.
Qed.

Lemma rstrip_cons (c : ascii) (s : string) :
  rstrip (String c s) =
  match rstrip s with
  | EmptyString => if is_space c then EmptyString else String c EmptyString
  | String d t => String c (String d t)
  end.
Proof. reflexivity. Qed.

Lemma rstrip_idempotent (s : string) : rstrip (rstrip s) = rstrip s.
Proof.
  induction s as [|c s IH]; [reflexivity|]. rewrite rstrip_cons.
  destruct (rstrip s) as [|d t] eqn:E.
  - destruct (is_space c) eqn:Ec; [reflexivity|].
    rewrite rstrip_cons. cbn [rstrip]. now rewrite Ec.
  - rewrite rstrip_cons, IH. reflexivity.
Qed.

Lemma rstrip_fixed_tail (c : ascii) (s : string) :
  rstrip (String c s) = String c s -> rstrip s = s.
Proof.
  rewrite rstrip_cons. destruct (rstrip s) as [|d t].
  - destruct (is_space c); [discriminate|]. intros H. now inversion H.
  - intros H. now inversion H.
Qed.

Lemma rstrip_lstrip_fixed (s : string) :
  rstrip s = s -> rstrip (lstrip s) = lstrip s.
Proof.
  induction s as [|c s IH]; intros H; [reflexivity|]. cbn [lstrip].
  destruct (is_space c); [|exact H].
  apply IH. now apply rstrip_fixed_tail in H.
Qed.

Lemma strip_idempotent (s : string) : strip (strip s) = strip s.
Proof.
  unfold strip.
  rewrite (rstrip_lstrip_fixed (rstrip s)) by apply rstrip_idempotent.
  apply lstrip_idempotent.
Qed.

Lemma is_space_upper_char (c : ascii) :
  is_space (upper_char c) = is_space c.
Proof.
  unfold upper_char.
  destruct ((97 <=? nat_of_ascii c)%nat && (nat_of_ascii c <=? 122)%nat)
    eqn:E; [|reflexivity].
  apply andb_prop in E. destruct E as [E1 E2].
  apply Nat.leb_le in E1, E2.
  unfold is_space. rewrite nat_ascii_embedding by lia.
  repeat match goal with
         | |- context [(?a <=? ?b)%nat] =>
             destruct (Nat.leb_spec a b); try lia
         end; reflexivity.
Qed.

Lemma upper_lstrip (s : string) : lstrip (upper s) = upper (lstrip s).
Proof.
  induction s as [|c s IH]; [reflexivity|]. cbn [upper lstrip].
  rewrite is_space_upper_char. now destruct (is_space c).
Qed.

Lemma upper_rstrip (s : string) : rstrip (upper s) = upper (rstrip s).
Proof.
  induction s as [|c s IH]; [reflexivity|]. cbn [upper].
  rewrite !rstrip_cons, IH, is_space_upper_char.
  destruct (rstrip s); cbn [upper]; [now destruct (is_space c)|reflexivity].
Qed.

Lemma upper_strip (s : string) : strip (upper s) = upper (strip s).
Proof. unfold strip. now rewrite upper_rstrip, upper_lstrip. Qed.

Lemma upper_char_idempotent (c : ascii) :
  upper_char (upper_char c) = upper_char c.
Proof.
  destruct ((97 <=? nat_of_ascii c)%nat && (nat_of_ascii c <=? 122)%nat)
    eqn:E.
  - assert (Hu : upper_char c = ascii_of_nat (nat_of_ascii c - 32))
      by (unfold upper_char; now rewrite E).
    apply andb_prop in E. destruct E as [E1 E2].
    apply Nat.leb_le in E1, E2.
    rewrite Hu. unfold upper_char. rewrite nat_ascii_embedding by lia.
    destruct (Nat.leb_spec 97 (nat_of_ascii c - 32)); [lia|reflexivity].
  - assert (Hu : upper_char c = c) by (unfold upper_char; now rewrite E).
    now rewrite !Hu.
Qed.

Lemma upper_idempotent (s : string) : upper (upper s) = upper s.
Proof.
  induction s as [|c s IH]; [reflexivity|]. cbn [upper].
  now rewrite upper_char_idempotent, IH.
Qed.

Lemma upper_strip_normalized (s : string) : normalized (upper (strip s)).
Proof.
  split.
  - now rewrite upper_strip, strip_idempotent.
  - apply upper_idempotent.
Qed.

(* ================================================================== *)
(** ** Properties of [load_events] *)

Section LoadedEvents.

Context {CL : Cells}.

Lemma frames_of_usable (files : list (option Sheet))
  (columns : ColumnMapping) :
  frames_of (filter (usable columns) files) columns =
  frames_of files columns.
Proof.
  induction files as [|read files IH]; [reflexivity|].
  cbn [filter]. destruct (usable columns read) eqn:E.
  - unfold frames_of in *. cbn [flat_map]. now rewrite IH.
  - unfold frames_of in *. cbn [flat_map]. rewrite IH.
    destruct read as [frame|]; [|reflexivity].
    unfold usable in E. now destruct (missing columns frame).
Qed.

Lemma with_timestamps_In (l : list (Cell * Cell * Cell)) :
  forall ts p e t,
    In (p, e, t) (with_timestamps l ts) -> exists c, In (p, e, c) l.
Proof.
  induction l as [|[[p0 e0] c0] l IH]; intros ts p e t H;
    [destruct ts; destruct H|].
  destruct ts as [|[t0|] ts]; cbn [with_timestamps] in H; [destruct H| |].
  - destruct H as [H|H].
    + inversion H; subst. exists c0. now left.
    + destruct (IH _ _ _ _ H) as [c Hc]. exists c. now right.
  - destruct (IH _ _ _ _ H) as [c Hc]. exists c. now right.
Qed.

Lemma frames_of_In (files : list (option Sheet)) (columns : ColumnMapping)
  (r : Cell * Cell * Cell) :
  In r (List.concat (frames_of files columns)) ->
  exists frame row,
    In (Some frame) files /\ missing columns frame = [] /\
    In row (sheet_rows frame) /\ isna (row (plate columns)) = false /\
    r = (row (plate columns), row (event columns), row (timestamp columns)).
Proof.
  induction files as [|read files IH]; intros H; [destruct H|].
  unfold frames_of in H. cbn [flat_map] in H.
  rewrite concat_app in H. apply in_app_or in H. destruct H as [H|H].
  - destruct read as [frame|]; [|destruct H].
    destruct (missing columns frame) eqn:Em; [|destruct H].
    cbn [List.concat] in H. rewrite app_nil_r in H.
    unfold trimmed in H. apply filter_In in H. destruct H as [H Hna].
    apply in_map_iff in H. destruct H as [row [Er Hrow]].
    exists frame, row. subst r. cbn [fst] in Hna.
    repeat split; try assumption; [now left|].
    now destruct (isna (row (plate columns))).
  - destruct (IH H) as [frame [row [Hf Hrest]]].
    exists frame, row. split; [now right|exact Hrest].
Qed.

Lemma loaded_events_normal (files : list (option Sheet))
  (mapping : ColumnMapping) (format : option string) :
  let events := load_events files mapping format in
  columns events = event_columns /\
  Forall (fun r => row_plate r <> ""%string /\ row_plate r <> "NAN"%string /\
                   normalized (row_plate r) /\ normalized (row_event r))
         (rows events).
Proof.
  intros events. unfold events, load_events.
  destruct (frames_of files mapping) as [|f fs];
    cbn [columns rows]; split; try reflexivity; [constructor|].
  apply Forall_forall. intros r Hr. apply filter_In in Hr.
  destruct Hr as [Hr Hne]. apply andb_prop in Hne. destruct Hne as [H1 H2].
  apply negb_true_iff in H1, H2. apply String.eqb_neq in H1, H2.
  apply in_map_iff in Hr. destruct Hr as [[[p e] t] [Er _]]. subst r.
  cbn [row_plate row_event fst snd] in *.
  repeat split; try assumption; apply upper_strip_normalized.
Qed.

(** X10.  What [load_events] hands on is normalised: the frame has its
    three columns, no plate is empty or the text "NAN", and every plate
    and every event label is stripped and upper-case. *)
Theorem loaded_events_are_normalized (files : list (option Sheet))
  (mapping : ColumnMapping) (format : option string) :
  let events := load_events files mapping format in
  columns events = event_columns /\
  Forall (fun r => row_plate r <> ""%string /\ row_plate r <> "NAN"%string /\
                   normalized (row_plate r) /\ normalized (row_event r))
         (rows events).
Proof. apply loaded_events_normal. Qed.

(** X11.  Every event [load_events] returns comes from a row, with a plate
    that is not missing, of a file that was read and has the three
    columns: its plate and its event are the normalised cells of that row.
    Files that cannot be read or lack a column change nothing. *)
Theorem loaded_events_come_from_usable_files (files : list (option Sheet))
  (mapping : ColumnMapping) (format : option string) :
  load_events (filter (usable mapping) files) mapping format =
    load_events files mapping format /\
  Forall (fun r =>
            exists frame row,
              In (Some frame) files /\ missing mapping frame = [] /\
              In row (sheet_rows frame) /\
              isna (row (plate mapping)) = false /\
              row_plate r = normalize (row (plate mapping)) /\
              row_event r = normalize (row (event mapping)))
         (rows (load_events files mapping format)).
Proof.
  split.
  - unfold load_events. now rewrite frames_of_usable.
  - unfold load_events.
    destruct (frames_of files mapping) as [|f fs] eqn:Ef;
      cbn [rows]; [constructor|].
    apply Forall_forall. intros r Hr. apply filter_In in Hr.
    destruct Hr as [Hr _].
    apply in_map_iff in Hr. destruct Hr as [[[p e] t] [Er Hr]]. subst r.
    apply with_timestamps_In in Hr. destruct Hr as [c Hc].
    rewrite <- Ef in Hc.
    destruct (frames_of_In files mapping _ Hc)
      as [frame [row [Hf [Hm [Hrow [Hna E]]]]]].
    inversion E; subst.
    exists frame, row. cbn [row_plate row_event fst snd].
    repeat split; assumption.
Qed.

End LoadedEvents.

(* ================================================================== *)
(** ** Markers that no loaded event can match *)

Section Markers.

Context {FL : Float64} {SV : SortValues} {CL : Cells}.
Variables entry_marker exit_marker : string.

#[local] Abbreviation kind := (kind_of entry_marker exit_marker).
#[local] Abbreviation build := (build_intervals entry_marker exit_marker).

(** Without a row that is both an ENTRY and followed by an EXIT there is
    no interval; in particular when no row is an ENTRY, or none an EXIT. *)
Lemma walk_without_entry (p : string) (l : list Event) :
  Forall (fun r => kind (row_event r) <> ENTRY) l ->
  intervals (walk entry_marker exit_marker p None l) = [].
Proof.
  induction 1 as [|r l Hr _ IH]; [reflexivity|]. cbn [walk].
  destruct (kind (row_event r)) eqn:Hk; [contradiction| |].
  - rewrite step_exit by exact Hk. cbn [fst snd Output_app intervals].
    exact IH.
  - rewrite step_other by exact Hk. cbn [fst snd Output_app intervals].
    exact IH.
Qed.

Lemma walk_without_exit (p : string) (l : list Event) :
  Forall (fun r => kind (row_event r) <> EXIT) l ->
  forall o, intervals (walk entry_marker exit_marker p o l) = [].
Proof.
  induction 1 as [|r l Hr _ IH]; intros o; cbn [walk].
  - now destruct o.
  - destruct (kind (row_event r)) eqn:Hk; [|contradiction|].
    + rewrite step_entry by exact Hk. cbn [fst snd Output_app intervals].
      rewrite IH. now destruct o.
    + rewrite step_other by exact Hk. cbn [fst snd Output_app intervals].
      apply IH.
Qed.

Lemma groups_output_without_pairs (groups : list (string * list Event)) :
  (Forall (fun g => Forall (fun r => kind (row_event r) <> ENTRY) (snd g))
     groups \/
   Forall (fun g => Forall (fun r => kind (row_event r) <> EXIT) (snd g))
     groups) ->
  intervals (groups_output entry_marker exit_marker groups) = [].
Proof.
  induction groups as [|[p g] rest IH]; intros H; [reflexivity|].
  cbn [groups_output fold_right fst snd Output_app intervals].
  fold (groups_output entry_marker exit_marker rest).
  rewrite IH.
  2:{ destruct H as [H|H]; [left|right]; now inversion H. }
  rewrite app_nil_r. unfold group_output.
  destruct (isdigit p); [reflexivity|].
  destruct H as [H|H]; inversion H as [|? ? Hg _]; subst; cbn [snd] in Hg.
  - apply walk_without_entry.
    eapply Permutation_Forall; [apply sort_values_Permutation|exact Hg].
  - apply walk_without_exit.
    eapply Permutation_Forall; [apply sort_values_Permutation|exact Hg].
Qed.

(** X12.  The markers are compared with event labels that [load_events]
    has stripped: a marker that begins or ends with white space matches no
    loaded event, and [build_intervals] then returns no interval at all,
    whatever the files hold. *)
Theorem unstripped_marker_pairs_nothing (files : list (option Sheet))
  (mapping : ColumnMapping) (format : option string) :
  strip entry_marker <> entry_marker \/ strip exit_marker <> exit_marker ->
  rows (fst (build (rows (load_events files mapping format)))) = [].
Proof.
  intros Hm.
  set (events := rows (load_events files mapping format)).
  assert (Hn : Forall (fun r => strip (row_event r) = row_event r) events).
  { destruct (loaded_events_normal files mapping format) as [_ H].
    eapply Forall_impl; [|exact H]. intros r [_ [_ [_ [Hs _]]]]. exact Hs. }
  destruct (build_intervals_groups entry_marker exit_marker events)
    as [-> _].
  apply groups_output_without_pairs. unfold groupby.
  rewrite Forall_forall in Hn.
  destruct Hm as [Hm|Hm]; [left|right];
    apply Forall_map, Forall_forall; intros k _; cbn [snd];
    apply Forall_forall; intros r Hr; apply filter_In in Hr;
    destruct Hr as [Hr _]; specialize (Hn r Hr); unfold kind_of.
  - destruct (String.eqb_spec (row_event r) entry_marker) as [E|_];
      [congruence|].
    destruct (String.eqb (row_event r) exit_marker); discriminate.
  - destruct (String.eqb (row_event r) entry_marker); [discriminate|].
    destruct (String.eqb_spec (row_event r) exit_marker) as [E|_];
      [congruence|discriminate].
Qed.

End Markers.

(* ================================================================== *)
(** ** Properties of [normalize_config] *)

Section NormalizedConfig.

Context {PL : PathLib}.

Lemma resolve_path_None (config_base : Path) (value : option string) :
  resolve_path config_base value None = None <->
  truthy value = false \/ unresolved config_base value = true.
Proof.
  unfold resolve_path, unresolved, truthy. destruct value as [[|c s]|].
  - split; [now left|reflexivity].
  - cbn zeta. destruct (is_absolute _); cbn [negb andb].
    + split; [discriminate|]. intros [H|H]; discriminate H.
    + destruct (resolve_under _ _).
      * split; [discriminate|]. intros [H|H]; discriminate H.
      * split; [now right|reflexivity].
  - split; [now left|reflexivity].
Qed.

Lemma truthy_source_text (raw_cfg : RawConfig) (overrides : Namespace) :
  truthy (source_text raw_cfg overrides) = source_given raw_cfg overrides.
Proof.
  unfold source_text, source_given, py_or.
  destruct (truthy (arg_source_folder overrides)) eqn:E;
    [now rewrite E|reflexivity].
Qed.

Lemma truthy_output_text (raw_cfg : RawConfig) (overrides : Namespace) :
  truthy (output_text raw_cfg overrides) =
  negb (output_blank raw_cfg overrides).
Proof.
  unfold output_text, output_blank, py_or.
  destruct (truthy (arg_output_file overrides)) eqn:E;
    [now rewrite E|].
  cbn [negb andb].
  destruct (raw_output_file raw_cfg); cbn [get_default];
    [reflexivity|reflexivity|now rewrite negb_involutive].
Qed.

(** X13.  For a configuration whose values have their types,
    [normalize_config] raises in these cases and in no other: no source
    folder is given; the source folder is a relative path on which
    [resolve] raises; the output file is blank; the output file is a
    relative path on which [resolve] raises.  An output file that is
    absent from the file falls back to the default, one that is present
    but blank does not. *)
Theorem normalize_config_fails_iff (raw_cfg : RawConfig)
  (overrides : Namespace) (config_base : Path) :
  normalize_config raw_cfg overrides config_base = None <->
  source_given raw_cfg overrides = false \/
  unresolved config_base (source_text raw_cfg overrides) = true \/
  output_blank raw_cfg overrides = true \/
  unresolved config_base (output_text raw_cfg overrides) = true.
Proof.
  pose proof (resolve_path_None config_base
                (source_text raw_cfg overrides)) as Hs.
  pose proof (resolve_path_None config_base
                (output_text raw_cfg overrides)) as Ho.
  rewrite truthy_source_text in Hs. rewrite truthy_output_text in Ho.
  unfold normalize_config.
  fold (source_text raw_cfg overrides). fold (output_text raw_cfg overrides).
  destruct (resolve_path config_base (source_text raw_cfg overrides) None)
    as [sf|].
  - destruct (resolve_path config_base (output_text raw_cfg overrides) None)
      as [outp|].
    + split; [discriminate|]. intros [H|[H|[H|H]]]; exfalso.
      * assert (E : Some sf = None) by (apply (proj2 Hs); now left).
        discriminate E.
      * assert (E : Some sf = None) by (apply (proj2 Hs); now right).
        discriminate E.
      * assert (E : Some outp = None)
          by (apply (proj2 Ho); left; now rewrite H).
        discriminate E.
      * assert (E : Some outp = None) by (apply (proj2 Ho); now right).
        discriminate E.
    + split; [|reflexivity]. intros _.
      destruct (proj1 Ho eq_refl) as [H|H].
      * right. right. left. now apply negb_false_iff in H.
      * right. right. now right.
  - split; [|reflexivity]. intros _.
    destruct (proj1 Hs eq_refl) as [H|H]; [now left|right; now left].
Qed.

Lemma upper_nonempty (s : string) : s <> EmptyString -> upper s <> EmptyString.
Proof. destruct s; [contradiction|discriminate]. Qed.

Lemma or_default_nonempty (v : option string) (default : string) :
  default <> EmptyString -> or_default v default <> EmptyString.
Proof. destruct v as [[|c s]|]; cbn; auto; discriminate. Qed.

(** X14.  The markers of a configuration that [normalize_config] accepts
    are never empty and are upper-case; a marker that the file leaves out,
    or gives as [null] or as an empty text, is "01 ENTRY" for the entry and
    "02 EXIT" for the exit. *)
Theorem normalized_markers (raw_cfg : RawConfig) (overrides : Namespace)
  (config_base : Path) (app_config : AppConfig) :
  normalize_config raw_cfg overrides config_base = Some app_config ->
  (app_entry_marker app_config <> EmptyString /\
   upper (app_entry_marker app_config) = app_entry_marker app_config /\
   (truthy (get (raw_entry_marker raw_cfg)) = false ->
    app_entry_marker app_config = "01 ENTRY"%string)) /\
  (app_exit_marker app_config <> EmptyString /\
   upper (app_exit_marker app_config) = app_exit_marker app_config /\
   (truthy (get (raw_exit_marker raw_cfg)) = false ->
    app_exit_marker app_config = "02 EXIT"%string)).
Proof.
  unfold normalize_config.
  destruct (resolve_path _ _ None) as [sf|]; [|discriminate].
  destruct (resolve_path _ _ None) as [outp|]; [|discriminate].
  intros H. inversion H; subst; clear H.
  cbn [app_entry_marker app_exit_marker].
  split; (split; [|split]).
  - apply upper_nonempty, or_default_nonempty. discriminate.
  - apply upper_idempotent.
  - destruct (get (raw_entry_marker raw_cfg)) as [[|c s]|];
      cbn; intros Ht; try reflexivity; discriminate Ht.
  - apply upper_nonempty, or_default_nonempty. discriminate.
  - apply upper_idempotent.
  - destruct (get (raw_exit_marker raw_cfg)) as [[|c s]|];
      cbn; intros Ht; try reflexivity; discriminate Ht.
Qed.

End NormalizedConfig.

(* ================================================================== *)
(** ** Properties of [_autosize_sheet] *)

Lemma max_of_ge (others : list nat) :
  forall first,
    (first <= max_of first others)%nat /\
    Forall (fun n => (n <= max_of first others)%nat) others /\
    (max_of first others = first \/ In (max_of first others) others).
Proof.
  unfold max_of.
  induction others as [|n others IH]; intros first; cbn [fold_left].
  - repeat split; [lia|constructor|now left].
  - destruct (IH (Nat.max first n)) as [H1 [H2 H3]].
    pose proof (Nat.le_max_l first n) as Hl.
    pose proof (Nat.le_max_r first n) as Hr.
    split; [|split].
    + now apply (Nat.le_trans _ (Nat.max first n)).
    + constructor; [|exact H2].
      now apply (Nat.le_trans _ (Nat.max first n)).
    + destruct H3 as [H3|H3]; [|right; now right].
      destruct (Nat.max_spec first n) as [[_ E]|[_ E]];
        rewrite E in H3 |- *.
      * right. left. now symmetry.
      * now left.
Qed.

Lemma in_combine_seq {A : Type} (l : list A) :
  forall (start i : nat) (a : A),
    In (i, a) (combine (seq start (List.length l)) l) ->
    (start <= i)%nat /\ nth_error l (i - start) = Some a.
Proof.
  induction l as [|b l IH]; intros start i a H; [destruct H|].
  cbn [List.length seq combine] in H. destruct H as [H|H].
  - inversion H; subst. split; [lia|]. now rewrite Nat.sub_diag.
  - destruct (IH (S start) i a H) as [Hle Hn]. split; [lia|].
    replace (i - start)%nat with (S (i - S start)) by lia. exact Hn.
Qed.

Lemma map_fst_combine_seq {A B : Type} (f : nat * A -> B) (l : list A)
  (start : nat) :
  map (fun ic => fst ic)
      (combine (seq start (List.length l)) l) =
  seq start (List.length l).
Proof.
  revert start. induction l as [|a l IH]; intros start; [reflexivity|].
  cbn [List.length seq combine map fst]. now rewrite IH.
Qed.

(** X15.  For a frame with distinct labels, [_autosize_sheet] sets one
    width for each column, in order.  A
    width lies between 2 and 60, is at least the length plus 2 of the
    header and of every cell of the column, up to the cap of 60, and is no
    wider than that: it is 60, or the length plus 2 of the header or of a
    cell. *)
Theorem autosized_widths (t : Table) :
  NoDup (headers t) ->
  map fst (_autosize_sheet t) = seq 1 (List.length (headers t)) /\
  (forall idx w, In (idx, w) (_autosize_sheet t) ->
     (2 <= w <= 60)%nat /\
     exists column,
       nth_error (headers t) (idx - 1) = Some column /\
       (Nat.min (String.length column + 2) 60 <= w)%nat /\
       Forall (fun c => (Nat.min (String.length c + 2) 60 <= w)%nat)
              (series t idx) /\
       (w = 60%nat \/ w = (String.length column + 2)%nat \/
        Exists (fun c => w = (String.length c + 2)%nat) (series t idx))).
Proof.
  intros _. unfold _autosize_sheet.
  destruct (headers t) as [|h hs] eqn:Eh.
  - split; [reflexivity|]. intros idx w [].
  - rewrite <- Eh. split.
    + rewrite map_map.
      rewrite (map_ext _ (fun ic => fst ic)) by (now intros [i c]).
      now apply (map_fst_combine_seq (fun ic => ic)).
    + intros idx w H. apply in_map_iff in H.
      destruct H as [[i column] [E Hin]].
      apply in_combine_seq in Hin. destruct Hin as [_ Hn].
      inversion E; subst; clear E.
      set (cells := map String.length (series t idx)).
      destruct (max_of_ge cells (String.length column)) as [H1 [H2 H3]].
      assert (Hbody : table_empty t = true -> series t idx = []).
      { unfold table_empty, series. rewrite Eh.
        destruct (body t); [reflexivity|discriminate]. }
      assert (Hmax : (if table_empty t then String.length column
                      else max_of (String.length column) cells) =
                     max_of (String.length column) cells).
      { destruct (table_empty t) eqn:Et; [|reflexivity].
        unfold cells. now rewrite (Hbody eq_refl). }
      rewrite Hmax. split; [lia|]. exists column.
      split; [exact Hn|]. split; [lia|]. split.
      * apply Forall_forall. intros c Hc.
        rewrite Forall_forall in H2.
        specialize (H2 (String.length c)).
        assert (In (String.length c) cells) by (now apply in_map).
        specialize (H2 H). lia.
      * destruct (Nat.min_spec (max_of (String.length column) cells + 2) 60)
          as [[_ E]|[_ E]]; rewrite E; [|now left].
        right. destruct H3 as [H3|H3]; [left; now rewrite H3|].
        right. apply in_map_iff in H3. destruct H3 as [c [Ec Hc]].
        apply Exists_exists. exists c. split; [exact Hc|]. now rewrite Ec.
Qed.

(* ================================================================== *)
(** ** How a run of [main] ends *)

Section MainOutcome.

Context {FL : Float64} {SV : SortValues} {RD : Render} {PL : PathLib}
        {CL : Cells}.

Lemma load_events_empty (files : list (option Sheet))
  (mapping : ColumnMapping) (format : option string) :
  empty (load_events files mapping format) = true <->
  rows (load_events files mapping format) = [].
Proof.
  unfold empty.
  destruct (loaded_events_normal files mapping format) as [-> _].
  cbn. destruct (rows _); split; congruence.
Qed.

(** X16.  A run of [main] that exits does so with status 1, on a
    configuration that [normalize_config] returns, and when no Excel file
    is found or no valid event is read; and [main] exits in both these
    cases.  A run that saves writes to the configured output file, after
    files were found and events read, the sheets "monthly_totals" and
    "intervals", followed by "issues" exactly when there is an issue.  The
    first sheet always has its five headers, while "intervals" has its
    four headers only when there is an interval. *)
Theorem main_outcome (read_excel : Path -> option Sheet)
  (raw_cfg : RawConfig) (args : Namespace) (config_base : Path) :
  (forall status,
     main read_excel raw_cfg args config_base = Exit status <->
     status = 1%nat /\
     exists cfg,
       normalize_config raw_cfg args config_base = Some cfg /\
       let files :=
         discover_excel_files (source_folder cfg) (recursive cfg) in
       files = [] \/
       rows (load_events (map read_excel files) (column_map cfg)
               (timestamp_format cfg)) = []) /\
  (forall out sheets,
     main read_excel raw_cfg args config_base = Saved out sheets ->
     exists cfg,
       normalize_config raw_cfg args config_base = Some cfg /\
       out = output_file cfg /\
       let files :=
         discover_excel_files (source_folder cfg) (recursive cfg) in
       let events :=
         rows (load_events (map read_excel files) (column_map cfg)
                 (timestamp_format cfg)) in
       let built :=
         build_intervals (app_entry_marker cfg) (app_exit_marker cfg)
           events in
       files <> [] /\ events <> [] /\
       map sheet_name sheets =
         ("monthly_totals" :: "intervals"
          :: match snd built with [] => [] | _ :: _ => ["issues"] end)%string
       /\
       map (fun s => headers (sheet_table s)) sheets =
         monthly_columns
         :: match rows (fst built) with
            | [] => []
            | _ :: _ => interval_columns
            end
         :: match snd built with [] => [] | _ :: _ => [issue_columns] end).
Proof.
  unfold main.
  destruct (normalize_config raw_cfg args config_base) as [cfg|].
  2:{ split.
      - intros status. split; [discriminate|].
        intros [_ [cfg [H _]]]. discriminate H.
      - intros out sheets H. discriminate H. }
  destruct (discover_excel_files (source_folder cfg) (recursive cfg))
    as [|f fs] eqn:Ef.
  { split.
    - intros status. split.
      + intros H. injection H as <-. split; [reflexivity|].
        exists cfg. split; [reflexivity|]. cbn zeta. rewrite Ef. now left.
      + intros [-> _]. reflexivity.
    - intros out sheets H. discriminate H. }
  destruct (empty (load_events _ _ _)) eqn:Ee.
  { split.
    - intros status. split.
      + intros H. injection H as <-. split; [reflexivity|].
        exists cfg. split; [reflexivity|].
        cbn zeta. rewrite Ef. right. apply load_events_empty. exact Ee.
      + intros [-> _]. reflexivity.
    - intros out sheets H. discriminate H. }
  assert (Hev : rows (load_events (map read_excel (f :: fs))
                        (column_map cfg) (timestamp_format cfg)) <> []).
  { intros H. apply load_events_empty in H. congruence. }
  destruct (build_intervals _ _ _) as [iv iss] eqn:Eb.
  split.
  - intros status. split; [discriminate|].
    intros [_ [cfg' [Hc H]]]. injection Hc as <-.
    cbn zeta in H. rewrite Ef in H. destruct H as [H|H];
      [discriminate H|contradiction].
  - intros out sheets H. injection H as <- <-.
    exists cfg. split; [reflexivity|]. split; [reflexivity|].
    cbn zeta. rewrite Ef, Eb. cbn [fst snd].
    split; [discriminate|]. split; [exact Hev|].
    assert (Hcols : columns iv =
                    match rows iv with
                    | [] => []
                    | _ :: _ => interval_columns
                    end).
    { replace iv with (fst (build_intervals
                                     (app_entry_marker cfg)
                                     (app_exit_marker cfg)
                                     (rows (load_events
                                        (map read_excel (f :: fs))
                                        (column_map cfg)
                                        (timestamp_format cfg)))))
        by now rewrite Eb.
      destruct (rows (load_events _ _ _)) as [|e es]; [contradiction|].
      unfold build_intervals. cbn [fst].
      now destruct (intervals _). }
    unfold write_output, written, table_of.
    cbn [map sheet_name sheet_table headers].
    rewrite Hcols.
    assert (Hm : columns (summarize_monthly iv) = monthly_columns).
    { unfold summarize_monthly. now destruct (empty iv). }
    rewrite Hm.
    destruct iss; split; reflexivity.
Qed.

End MainOutcome.

(* ================================================================== *)
(** ** Properties of [discover_excel_files] *)

Section Discovered.

Context {PL : PathLib}.

(** X17.  [discover_excel_files] returns the matches of one pattern,
    ["**/*.xls*"] when recursive and ["*.xls*"] when not, that are regular
    files and not lock files, each as often as it is matched and nothing
    else; where the order of paths is transitive and total, they come back
    in ascending order. *)
Theorem discovered_files (folder : Path) (recursive : bool) :
  let pattern := if recursive then "**/*.xls*"%string else "*.xls*"%string in
  Permutation (filter eligible (glob folder pattern))
              (discover_excel_files folder recursive) /\
  Forall (fun p => is_file p = true /\
                   startswith (name p) "~$"%string = false)
         (discover_excel_files folder recursive) /\
  ((forall a b c, path_leb a b = true -> path_leb b c = true ->
                  path_leb a c = true) ->
   (forall a b, path_leb a b = false -> path_leb b a = true) ->
   StronglySorted (fun a b => path_leb a b = true)
     (discover_excel_files folder recursive)).
Proof.
  intros pattern. unfold discover_excel_files. fold pattern. fold eligible.
  split; [apply sort_keys_Permutation|]. split.
  - eapply Permutation_Forall; [apply sort_keys_Permutation|].
    apply Forall_forall. intros p Hp. apply filter_In in Hp.
    destruct Hp as [_ He]. unfold eligible in He.
    apply andb_prop in He. destruct He as [H1 H2].
    apply negb_true_iff in H2. now split.
  - intros Htrans Htotal. apply sort_keys_StronglySorted.
    + exact Htrans.
    + intros a b H. exact H.
    + exact Htotal.
Qed.

End Discovered.

(* ================================================================== *)
(** ** The order of the input rows *)

Lemma sorted_keys_unique (l1 : list string) :
  forall l2,
    StronglySorted plate_le l1 -> StronglySorted plate_le l2 ->
    NoDup l1 -> NoDup l2 -> (forall x, In x l1 <-> In x l2) -> l1 = l2.
Proof.
  induction l1 as [|a l1 IH]; intros l2 H1 H2 N1 N2 Hin.
  - destruct l2 as [|b l2]; [reflexivity|].
    exfalso. apply (proj2 (Hin b)). now left.
  - destruct l2 as [|b l2].
    { exfalso. apply (proj1 (Hin a)). now left. }
    inversion H1 as [|? ? H1' Hall1]; subst.
    inversion H2 as [|? ? H2' Hall2]; subst.
    inversion N1 as [|? ? Na N1']; subst.
    inversion N2 as [|? ? Nb N2']; subst.
    rewrite Forall_forall in Hall1, Hall2.
    assert (a = b) as ->.
    { destruct (proj1 (Hin a) (or_introl eq_refl)) as [E|Ha]; [now subst|].
      destruct (proj2 (Hin b) (or_introl eq_refl)) as [E|Hb]; [now subst|].
      apply String.leb_antisym; [now apply Hall1|now apply Hall2]. }
    f_equal. apply IH; try assumption.
    intros x. split; intros Hx.
    + destruct (proj1 (Hin x) (or_intror Hx)) as [E|H]; [|exact H].
      subst x. contradiction.
    + destruct (proj2 (Hin x) (or_intror Hx)) as [E|H]; [|exact H].
      subst x. contradiction.
Qed.

Lemma group_keys_Permutation (events events' : list Event) :
  Permutation events events' -> group_keys events = group_keys events'.
Proof.
  intros HP. apply sorted_keys_unique.
  - apply group_keys_sorted.
  - apply group_keys_sorted.
  - apply group_keys_NoDup.
  - apply group_keys_NoDup.
  - intros x. rewrite !group_keys_In. split; apply Permutation_in.
    + now apply Permutation_map.
    + now apply Permutation_map, Permutation_sym.
Qed.

Lemma NoDup_map_filter {A B : Type} (f : A -> B) (g : A -> bool)
  (l : list A) :
  NoDup (map f l) -> NoDup (map f (filter g l)).
Proof.
  induction l as [|a l IH]; intros H; [constructor|].
  cbn [map filter] in *. inversion H as [|? ? Hn Hl]; subst.
  destruct (g a); [|now apply IH].
  cbn [map]. constructor; [|now apply IH].
  intros Hin. apply Hn. apply in_map_iff in Hin.
  destruct Hin as [x [Ex Hx]]. apply filter_In in Hx.
  apply in_map_iff. exists x. now split.
Qed.

Section InputOrder.

Context {FL : Float64} {SV : SortValues}.
Variables entry_marker exit_marker : string.

#[local] Abbreviation build := (build_intervals entry_marker exit_marker).

(** X18.  When no two events of a plate share a timestamp, the order of
    the rows of the input does not matter: two inputs with the same rows
    give the same intervals, the same issues and the same frame. *)
Theorem row_order_is_irrelevant_without_ties (events events' : list Event) :
  Permutation events events' ->
  (forall p, NoDup (map row_timestamp (get_group p events))) ->
  build events = build events'.
Proof.
  intros HP Hnd.
  assert (Hsort : forall p,
            sort_values (get_group p events) =
            sort_values (get_group p events')).
  { intros p.
    assert (Hg : Permutation (get_group p events) (get_group p events'))
      by now apply Permutation_filter.
    assert (Hstrict : forall l, Permutation (get_group p events) l ->
              StronglySorted timestamp_le l -> StronglySorted timestamp_lt l).
    { intros l Hl Hs. apply StronglySorted_le_lt; [|exact Hs].
      eapply Permutation_NoDup; [apply Permutation_map, Hl|apply Hnd]. }
    apply strictly_sorted_unique.
    - apply Hstrict; [apply sort_values_Permutation|apply sort_values_Sorted].
    - apply Hstrict; [|apply sort_values_Sorted].
      eapply perm_trans; [exact Hg|apply sort_values_Permutation].
    - eapply perm_trans; [apply Permutation_sym, sort_values_Permutation|].
      eapply perm_trans; [exact Hg|apply sort_values_Permutation]. }
  assert (Hgroups : groups_output entry_marker exit_marker (groupby events) =
                    groups_output entry_marker exit_marker (groupby events')).
  { unfold groupby. rewrite <- (group_keys_Permutation events events' HP).
    induction (group_keys events) as [|k keys IH];
      cbn [map groups_output fold_right fst snd]; [reflexivity|].
    fold (groups_output entry_marker exit_marker
            (map (fun k => (k, get_group k events)) keys)).
    fold (groups_output entry_marker exit_marker
            (map (fun k => (k, get_group k events')) keys)).
    rewrite IH. f_equal. unfold group_output. now rewrite Hsort. }
  destruct events as [|e es].
  - apply Permutation_nil in HP. now subst.
  - destruct events' as [|e' es'].
    { apply Permutation_sym, Permutation_nil in HP. discriminate. }
    unfold build_intervals.
    rewrite !(fold_process_group entry_marker exit_marker _ (mkOutput [] [])).
    now rewrite Hgroups.
Qed.

End InputOrder.

(* ================================================================== *)
(** ** The further properties at concrete inputs *)

(** X4 on two stays of ["AB 123"]. *)
Lemma alternating_events_pair_up_witness :
  let pairs := [(minutes 0, minutes 90); (minutes 120, minutes 125)] in
  rows (fst (build_intervals entry_label exit_label
               (visits_events entry_label exit_label "AB 123" pairs))) =
    [ mkInterval "AB 123" (minutes 0) (minutes 90) (90 # 1)%Q;
      mkInterval "AB 123" (minutes 120) (minutes 125) (5 # 1)%Q ] /\
  snd (build_intervals entry_label exit_label
         (visits_events entry_label exit_label "AB 123" pairs)) = [].
Proof.
  intros pairs.
  assert (Hs : StronglySorted Z.lt (visits_instants pairs)).
  { repeat (constructor; [|repeat (constructor; [reflexivity|])]);
      constructor. }
  assert (Hm : entry_label <> exit_label) by discriminate.
  destruct (alternating_events_pair_up entry_label exit_label
              "AB 123"%string pairs eq_refl Hm Hs) as [H1 H2].
  split; [rewrite H1; reflexivity|exact H2].
Defined.

(** X7 on the four sample stays. *)
Lemma monthly_visits_count_every_interval_witness :
  list_sum
    (map visits
       (rows (summarize_monthly
                (DataFrame_of_records interval_columns sample_intervals)))) =
  4%nat.
Proof.
  apply (monthly_visits_count_every_interval sample_intervals).
  repeat constructor.
Defined.

(** X12 on the sample sheet, with an entry marker that begins with a
    blank. *)
Lemma unstripped_marker_pairs_nothing_witness :
  strip " 01 ENTRY" <> " 01 ENTRY"%string /\
  rows (fst (build_intervals " 01 ENTRY" "02 EXIT"
               (rows (load_events [Some sample_sheet] sample_mapping
                        None)))) = [].
Proof.
  assert (H : strip " 01 ENTRY" <> " 01 ENTRY"%string) by discriminate.
  split; [exact H|].
  apply (unstripped_marker_pairs_nothing " 01 ENTRY"%string "02 EXIT"%string
           [Some sample_sheet] sample_mapping None).
  left. exact H.
Defined.

(** X13 on a configuration whose source folder is a relative path with
    a NUL character, and on the sample configuration with an output file
    given as an empty text. *)
Lemma normalize_config_fails_iff_witness :
  normalize_config
    (mkRawConfig (Value (String zero "data")) Missing None Missing Missing
       Missing Missing)
    sample_args "/etc"%string = None /\
  normalize_config
    (mkRawConfig (Value "data"%string) (Value EmptyString) None Missing
       Missing Missing Missing)
    sample_args "/etc"%string = None.
Proof.
  split.
  - apply (proj2 (normalize_config_fails_iff (PL := text_PathLib) _
                    sample_args "/etc"%string)).
    right. left. reflexivity.
  - apply (proj2 (normalize_config_fails_iff (PL := text_PathLib) _
                    sample_args "/etc"%string)).
    right. right. left. reflexivity.
Defined.

(** X14 on the sample configuration: the entry marker is given in lower
    case, the exit marker as [null]. *)
Lemma normalized_markers_witness :
  normalize_config sample_config sample_args "/etc"%string =
    Some sample_app_config /\
  app_entry_marker sample_app_config = "01 ENTRY"%string /\
  (truthy (get (raw_exit_marker sample_config)) = false ->
   app_exit_marker sample_app_config = "02 EXIT"%string).
Proof.
  assert (H : normalize_config sample_config sample_args "/etc"%string =
              Some sample_app_config) by reflexivity.
  split; [exact H|]. split; [reflexivity|].
  exact (proj2 (proj2 (proj2
           (normalized_markers (PL := text_PathLib) sample_config
              sample_args "/etc"%string sample_app_config H)))).
Defined.

(** X15 on the issues sheet of one issue: the widths of its three
    columns. *)
Lemma autosized_widths_witness :
  NoDup (headers sample_table) /\
  _autosize_sheet sample_table = [(1, 8); (2, 29); (3, 21)]%nat /\
  map fst (_autosize_sheet sample_table) = [1; 2; 3]%nat.
Proof.
  assert (H : NoDup (headers sample_table)).
  { repeat (constructor; [simpl; intuition discriminate|]). constructor. }
  split; [exact H|]. split; [reflexivity|].
  exact (proj1 (autosized_widths sample_table H)).
Defined.

(** X17 on the sample folder, searched with its sub-folders. *)
Lemma discovered_files_witness :
  discover_excel_files "/data"%string true =
    ["/data/a.xls"; "/data/b.xlsx"; "/data/old/c.xlsx"]%string /\
  StronglySorted (fun a b => path_leb a b = true)
    (discover_excel_files "/data"%string true).
Proof.
  split; [reflexivity|].
  apply (discovered_files (PL := text_PathLib) "/data"%string true).
  - exact string_leb_trans.
  - exact string_leb_false.
Defined.

(** X18 on the sample rows, read forwards and backwards. *)
Lemma row_order_is_irrelevant_without_ties_witness :
  build_intervals entry_label exit_label sample_events =
  build_intervals entry_label exit_label (rev sample_events).
Proof.
  apply (row_order_is_irrelevant_without_ties entry_label exit_label
           sample_events (rev sample_events)).
  - apply Permutation_rev.
  - intros p. apply NoDup_map_filter.
    repeat (constructor; [simpl; intuition discriminate|]). constructor.
Defined.
